(** * EvolvePro: [evolvepro/plm/esm/extract_mps.py]

    A shallow embedding of the representation-extraction script: the device
    selector [get_device], the inference runner [run] and the concatenator
    [concatenate_files], with the properties the specification states about
    them.

    Python values are embedded as follows.
    - [int] is [Z]; [len(...)] and [enumerate] counters are [nat].
    - [str] is [string]; a [list] is a [list].
    - the per-sequence result, a [dict] with string keys, is a
      [gmap string value]; its key set is [dom].
    - a by-layer [dict] is an insertion-ordered association list, because
      [dict.popitem] depends on the order.
    - a tensor is a nested list of elements of an abstract type [elt]; the
      floating-point reduction [mean(0)] is a parameter.
    - exceptions are the constructors of [exn]; effects (prints, directory
      creation, forward passes, saved files) are appended to a trace. *)

From Stdlib Require Import ZArith List String Ascii Bool Lia.
From stdpp Require Import base gmap sets list strings.

Local Open Scope string_scope.
Local Open Scope list_scope.
Local Open Scope Z_scope.

(** ** Python built-ins used by the script *)

Module Py.

(** Exceptions the script can raise. *)
Inductive exn : Type :=
| ValueError (msg : string)
| AssertionError
| KeyError (key : string)
| IndexError
| AttributeError (attr : string).


(** Bound adjustment of [start:stop] slices on a sequence of length [n]:
    a negative bound counts from the end, and both are clamped to
    [0..n]. *)
Definition slice_index (n i : Z) : Z :=
  if i <? 0 then Z.max 0 (i + n) else Z.min i n.

(** [l[start:stop]]. *)
Definition slice {A : Type} (start stop : Z) (l : list A) : list A :=
  let n := Z.of_nat (length l) in
  let lo := slice_index n start in
  let hi := slice_index n stop in
  take (Z.to_nat (hi - lo)) (drop (Z.to_nat lo) l).

(** [l[i]] for an index that [enumerate] produced (never negative). *)
Definition getitem {A : Type} (l : list A) (i : nat) : exn + A :=
  match l !! i with
  | Some x => inr x
  | None => inl IndexError
  end.

(** [enumerate(l)]. *)
Fixpoint enumerate_from {A : Type} (k : nat) (l : list A) : list (nat * A) :=
  match l with
  | [] => []
  | x :: l' => (k, x) :: enumerate_from (S k) l'
  end.

Definition enumerate {A : Type} (l : list A) : list (nat * A) :=
  enumerate_from 0 l.

(** [x in l] for a list of strings. *)
Definition str_in_list (x : string) (l : list string) : bool :=
  existsb (String.eqb x) l.

(** [s.startswith(p)] *)
Fixpoint startswith (p s : string) : bool :=
  match p, s with
  | EmptyString, _ => true
  | String a p', String b s' => Ascii.eqb a b && startswith p' s'
  | String _ _, EmptyString => false
  end.

(** [p in s] for strings: [p] occurs somewhere in [s]. *)
Fixpoint str_in (p s : string) : bool :=
  startswith p s ||
  match s with
  | EmptyString => false
  | String _ s' => str_in p s'
  end.

(** [s.endswith("/")] *)
Fixpoint ends_with_slash (s : string) : bool :=
  match s with
  | EmptyString => false
  | String a EmptyString => Ascii.eqb a "/"%char
  | String _ s' => ends_with_slash s'
  end.

(** [os.path.join(a, b)] on POSIX. *)
Definition os_path_join (a b : string) : string :=
  if startswith "/" b then b
  else if String.eqb a "" || ends_with_slash a then a +:+ b
  else a +:+ "/" +:+ b.

(** Insertion-ordered dictionaries: [d[k] = v] overwrites in place when
    the key is present and appends otherwise. *)
Fixpoint dict_set {K V : Type} `{EqDecision K} (k : K) (v : V)
    (d : list (K * V)) : list (K * V) :=
  match d with
  | [] => [(k, v)]
  | (k', v') :: d' =>
      if decide (k = k') then (k, v) :: d' else (k', v') :: dict_set k v d'
  end.

(** [d.popitem()]: removes and returns the entry inserted last; on an
    empty dictionary it raises [KeyError]. *)
Definition popitem {K V : Type} (d : list (K * V))
    : exn + ((K * V) * list (K * V)) :=
  match last d with
  | Some kv => inr (kv, removelast d)
  | None => inl (KeyError "popitem(): dictionary is empty")
  end.

End Py.

(** ** Device selection *)

Inductive device : Type := mps | cuda | cpu.

(** [get_device()], as a function of what [torch.backends.mps.is_available()]
    and [torch.cuda.is_available()] answer. *)
Definition get_device (mps_is_available cuda_is_available : bool) : device :=
  if mps_is_available then mps
  else if cuda_is_available then cuda
  else cpu.

Definition device_is_cpu (d : device) : bool :=
  match d with cpu => true | _ => false end.

(** ** Effects: a trace of events and an exception *)

(** A computation appends events of type [E] to the trace it is given and
    either raises or returns. *)
Definition M (E A : Type) : Type := list E -> (Py.exn + A) * list E.

Definition ret {E A : Type} (a : A) : M E A := fun tr => (inr a, tr).

Definition bind {E A B : Type} (m : M E A) (k : A -> M E B) : M E B :=
  fun tr =>
    match m tr with
    | (inr a, tr') => k a tr'
    | (inl e, tr') => (inl e, tr')
    end.

Definition raise {E A : Type} (e : Py.exn) : M E A := fun tr => (inl e, tr).

Definition emit {E : Type} (ev : E) : M E unit := fun tr => (inr tt, tr ++ [ev]).

(** A pure step that may raise. *)
Definition lift {E A : Type} (r : Py.exn + A) : M E A := fun tr => (r, tr).

(** stdpp's monad notation ([x ← m; k], [m;; k]) for both layers. *)
#[global] Instance M_ret {E : Type} : MRet (M E) := @ret E.
#[global] Instance M_bind {E : Type} : MBind (M E) := fun A B k m => bind m k.

(** [for x in l: body(x)] *)
Fixpoint for_each {E A : Type} (l : list A) (body : A -> M E unit) : M E unit :=
  match l with
  | [] => ret tt
  | x :: l' => bind (body x) (fun _ => for_each l' body)
  end.

(** [for x in l: acc.append(body(x))], returning the appended items. *)
Fixpoint for_collect {E A B : Type} (l : list A) (body : A -> M E B) : M E (list B) :=
  match l with
  | [] => ret []
  | x :: l' =>
      bind (body x) (fun y => bind (for_collect l' body) (fun ys => ret (y :: ys)))
  end.

(** The exception layer alone, for steps without events. *)
Definition ebind {A B : Type} (r : Py.exn + A) (k : A -> Py.exn + B) : Py.exn + B :=
  match r with
  | inr a => k a
  | inl e => inl e
  end.

#[global] Instance exn_ret : MRet (sum Py.exn) := fun A a => inr a.
#[global] Instance exn_bind : MBind (sum Py.exn) := fun A B k r => ebind r k.

(** [{k: f(v) for k, v in items}] *)
Fixpoint dict_comp {K V W : Type} `{EqDecision K} (f : V -> Py.exn + W)
    (items : list (K * V)) (acc : list (K * W)) : Py.exn + list (K * W) :=
  match items with
  | [] => inr acc
  | (k, v) :: items' =>
      ebind (f v) (fun w => dict_comp f items' (Py.dict_set k w acc))
  end.

(** ** The inference runner *)

(** Parsed command line ([args]). Paths are kept as strings. *)
Record Args : Type := {
  model_location : string;
  fasta_file : string;
  output_dir : string;
  toks_per_batch : Z;
  repr_layers : list Z;
  include : list string;
  truncation_seq_length : Z;
  nogpu : bool;
  concatenate_dir : option string
}.

Section Extract.

(** Tensor elements, and [m.mean(0)] on a (rows x dim) matrix. *)
Context {elt : Type}.
Variable mean0 : list (list elt) -> list elt.

(** Saved tensors are one- or two-dimensional. *)
Inductive tensor : Type :=
| T1 (v : list elt)
| T2 (m : list (list elt)).

(** Values stored in a per-sequence result. *)
Inductive value : Type :=
| VStr (s : string)
| VLayers (d : list (Z * tensor))
| VTensor (t : tensor).

(** What the batch converter yields for one batch: [(labels, strs, toks)]. *)
Record Batch : Type := {
  labels : list string;
  strs : list string;
  toks : list (list Z)
}.

(** [out = model(toks, repr_layers=..., return_contacts=...)]:
    [out["representations"]] maps a layer to a (batch x tokens x dim) tensor,
    [out["contacts"]] is a (batch x len x len) tensor when present. *)
Record ModelOut : Type := {
  out_representations : list (Z * list (list (list elt)));
  out_contacts : option (list (list (list elt)))
}.

Record Model : Type := {
  is_MSATransformer : bool;
  num_layers : nat;
  forward : list (list Z) -> list Z -> bool -> ModelOut
}.

(** The library and machine the script runs against. *)
Record Env : Type := {
  load_model_and_alphabet : string -> Model;
  mps_is_available : bool;
  cuda_is_available : bool;
  from_file : string -> list (string * string);
  data_loader : list (string * string) -> Z -> list Batch
}.

Inductive message : Type :=
| MsgTransferred (d : device)
| MsgRead (fasta : string) (n : nat)
| MsgProcessing (k total nseq : nat)
| MsgDevice (d : device)
| MsgSaved (dir : string)
| MsgShape (nrows ncols : nat)
| MsgSavedCsv (path : string)
| MsgNoData.

(** A table: one [(index, cells)] per row; [None] is a missing cell. *)
Inductive cell : Type :=
| CNum (x : elt)
| CList (xs : list elt).

Inductive event : Type :=
| ELoadModel (location : string)
| EModelEval
| EModelTo (d : device)
| EReadFasta (path : string)
| EBatchIndices (toks_per_batch : Z)
| EMkdir (path : string)
| EMkdirParent (dir name : string)
| EForward (toks : list (list Z)) (layers : list Z) (return_contacts : bool)
| ESave (dir name : string) (result : gmap string value)
| EToCsv (path : string) (df : list (value * list (option cell)))
| EPrint (m : message).

Definition return_contacts (args : Args) : bool :=
  Py.str_in_list "contacts" (include args).

Definition truncate_len (args : Args) (s : string) : Z :=
  Z.min (truncation_seq_length args) (Z.of_nat (String.length s)).

(** [if flag: result[key] = v], where computing [v] may raise. *)
Definition set_if (flag : bool) (key : string) (v : Py.exn + value)
    (result : gmap string value) : Py.exn + gmap string value :=
  if flag then x ← v; mret (<[key := x]> result) else mret result.

(** [t[i, 1 : truncate_len + 1]] *)
Definition per_tok_slice (truncate_len : Z) (i : nat) (t : list (list (list elt)))
    : Py.exn + list (list elt) :=
  row ← Py.getitem t i; mret (Py.slice 1 (truncate_len + 1) row).

(** [contacts[i, :truncate_len, :truncate_len]] *)
Definition contacts_slice (truncate_len : Z) (i : nat) (contacts : list (list (list elt)))
    : Py.exn + list (list elt) :=
  c ← Py.getitem contacts i;
  mret (map (Py.slice 0 truncate_len) (Py.slice 0 truncate_len c)).

(** The three by-layer entries: [t[i, 1 : truncate_len + 1].clone()],
    [t[i, 1 : truncate_len + 1].mean(0).clone()] and [t[i, 0].clone()]. *)
Definition per_tok_entry (truncate_len : Z) (i : nat) (t : list (list (list elt)))
    : Py.exn + tensor :=
  m ← per_tok_slice truncate_len i t; mret (T2 m).

Definition mean_entry (truncate_len : Z) (i : nat) (t : list (list (list elt)))
    : Py.exn + tensor :=
  m ← per_tok_slice truncate_len i t; mret (T1 (mean0 m)).

Definition bos_entry (i : nat) (t : list (list (list elt))) : Py.exn + tensor :=
  row ← Py.getitem t i; r0 ← Py.getitem row 0%nat; mret (T1 r0).

(** [{layer: entry(t) for layer, t in representations.items()}] *)
Definition layers_value (entry : list (list (list elt)) -> Py.exn + tensor)
    (representations : list (Z * list (list (list elt)))) : Py.exn + value :=
  d ← dict_comp entry representations []; mret (VLayers d).

Definition contacts_value (truncate_len : Z) (i : nat)
    (contacts : list (list (list elt))) : Py.exn + value :=
  m ← contacts_slice truncate_len i contacts; mret (VTensor (T2 m)).

(** Lines 139-160: the result built for sequence [i] of a batch. *)
Definition seq_result (args : Args)
    (representations : list (Z * list (list (list elt))))
    (contacts : list (list (list elt)))
    (i : nat) (label : string) (strs : list string)
    : Py.exn + gmap string value :=
  let result : gmap string value := {["label" := VStr label]} in
  s ← Py.getitem strs i;
  let truncate_len := truncate_len args s in
  result ←
    set_if (Py.str_in_list "per_tok" (include args)) "representations"
      (layers_value (per_tok_entry truncate_len i) representations) result;
  result ←
    set_if (Py.str_in_list "mean" (include args)) "mean_representations"
      (layers_value (mean_entry truncate_len i) representations) result;
  result ←
    set_if (Py.str_in_list "bos" (include args)) "bos_representations"
      (layers_value (bos_entry i) representations) result;
  set_if (return_contacts args) "contacts"
    (contacts_value truncate_len i contacts) result.

Definition use_accelerator (args : Args) (dev : device) : bool :=
  negb (nogpu args) && negb (device_is_cpu dev).

(** [-(L + 1) <= i <= L] *)
Definition layer_in_range (L i : Z) : bool :=
  (- (L + 1) <=? i) && (i <=? L).

(** [(i + L + 1) % (L + 1)]; Python's [%] with a positive modulus is
    [Z.modulo]. *)
Definition normalize_layer (L i : Z) : Z :=
  (i + L + 1) `mod` (L + 1).

(** Lines 136-165: one iteration of the per-sequence loop. The two events
    record the operands [args.output_dir] and ["<label>.pt"] of the
    [pathlib] join of line 137, not the joined path. *)
Definition process_sequence (args : Args)
    (representations : list (Z * list (list (list elt))))
    (contacts : list (list (list elt))) (strs : list string)
    (il : nat * string) : M event unit :=
  let '(i, label) := il in
  emit (EMkdirParent (output_dir args) (label +:+ ".pt"));;
  result ← lift (seq_result args representations contacts i label strs);
  emit (ESave (output_dir args) (label +:+ ".pt") result).

(** Lines 118-165: one iteration of the batch loop. [contacts] is bound
    only when contacts are requested and is not read otherwise. *)
Definition process_batch (args : Args) (model : Model) (dev : device)
    (layers : list Z) (n_batches : nat) (kb : nat * Batch) : M event unit :=
  let '(batch_idx, b) := kb in
  emit (EPrint (MsgProcessing (batch_idx + 1) n_batches (length (toks b))));;
  emit (EPrint (MsgDevice (if use_accelerator args dev then dev else cpu)));;
  emit (EForward (toks b) layers (return_contacts args));;
  let out := forward model (toks b) layers (return_contacts args) in
  representations ← lift (dict_comp inr (out_representations out) []);
  contacts ←
    (if return_contacts args then
       match out_contacts out with
       | Some c => mret c
       | None => raise (Py.KeyError "contacts")
       end
     else mret []);
  for_each (Py.enumerate (labels b))
           (process_sequence args representations contacts (strs b)).

Definition msa_message : string :=
  "This script currently does not handle models with MSA input (MSA Transformer).".

(** [run(args)]. The calls into the libraries (loading the model, reading
    the FASTA file, the forward pass, [mkdir], [torch.save]) are taken to
    succeed; [out["logits"]] (line 129) is bound and never used. *)
Definition run (env : Env) (args : Args) : M event unit :=
  emit (ELoadModel (model_location args));;
  let model := load_model_and_alphabet env (model_location args) in
  emit EModelEval;;
  if is_MSATransformer model then raise (Py.ValueError msa_message)
  else
    let dev := get_device (mps_is_available env) (cuda_is_available env) in
    (if use_accelerator args dev
     then emit (EModelTo dev);; emit (EPrint (MsgTransferred dev))
     else mret tt);;
    emit (EReadFasta (fasta_file args));;
    let dataset := from_file env (fasta_file args) in
    emit (EBatchIndices (toks_per_batch args));;
    let batches := data_loader env dataset (toks_per_batch args) in
    emit (EPrint (MsgRead (fasta_file args) (length dataset)));;
    emit (EMkdir (output_dir args));;
    let L := Z.of_nat (num_layers model) in
    if negb (forallb (layer_in_range L) (repr_layers args))
    then raise Py.AssertionError
    else
      let layers := map (normalize_layer L) (repr_layers args) in
      for_each (Py.enumerate batches)
               (process_batch args model dev layers (length batches));;
      emit (EPrint (MsgSaved (output_dir args))).

(** ** The concatenator *)

(** A directory as [os.walk] sees it: its files, each with the object
    [torch.load] returns for it, and its subdirectories, both in listing
    order. A directory that does not exist is walked like an empty one. *)
#[warnings="-register-all"] Inductive tree : Type :=
| Dir (files : list (string * gmap string value)) (dirs : list (string * tree)).

(** [os.walk(top)], top-down: one [(r, d, f)] per directory. *)
Fixpoint os_walk (top : string) (t : tree)
    : list (string * list string * list (string * gmap string value)) :=
  match t with
  | Dir files dirs =>
      (top, map fst dirs, files) ::
      (fix walk_dirs (ds : list (string * tree)) :=
         match ds with
         | [] => []
         | (name, sub) :: ds' =>
             os_walk (Py.os_path_join top name) sub ++ walk_dirs ds'
         end) dirs
  end.

(** Lines 172-176: the paths collected into [files], each paired with the
    object a later [torch.load] of that path returns. *)
Definition pt_files
    (walk : list (string * list string * list (string * gmap string value)))
    : list (string * gmap string value) :=
  flat_map
    (fun '(r, _, f) =>
       map (fun '(file, data) => (Py.os_path_join r file, data))
           (List.filter (fun '(file, _) => Py.str_in ".pt" file) f))
    walk.

(** [d[k]] on a result object. *)
Definition dict_getitem (d : gmap string value) (k : string) : Py.exn + value :=
  match d !! k with
  | Some v => inr v
  | None => inl (Py.KeyError k)
  end.

(** [representations.popitem()]: only a dictionary has the method. *)
Definition value_popitem (v : value) : Py.exn + (Z * tensor) :=
  match v with
  | VLayers d => kv ← Py.popitem d; mret kv.1
  | _ => inl (Py.AttributeError "popitem")
  end.

(** [tensor.tolist()] *)
Definition tolist (t : tensor) : list cell :=
  match t with
  | T1 v => map CNum v
  | T2 m => map CList m
  end.

(** Lines 181-188: the one-row frame built from one file. *)
Definition load_row (file : string * gmap string value)
    : Py.exn + list (value * list (option cell)) :=
  let '(file_path, file_data) := file in
  label ← dict_getitem file_data "label";
  representations ← dict_getitem file_data "mean_representations";
  kt ← value_popitem representations;
  let row_name := label in
  let row_data := tolist kt.2 in
  mret [(row_name, map Some row_data)].

Definition df_width (df : list (value * list (option cell))) : nat :=
  foldr (fun r w => Nat.max (length r.2) w) 0%nat df.

(** [pd.concat(dataframes)]: the rows in order, over the union of the
    columns; cells a frame does not have are missing. *)
Definition pd_concat (dfs : list (list (value * list (option cell))))
    : list (value * list (option cell)) :=
  let rows := concat dfs in
  let w := df_width rows in
  map (fun r => (r.1, r.2 ++ replicate (w - length r.2) None)) rows.

(** [concatenate_files(output_dir, output_csv)], run on the tree found at
    [output_dir]. *)
Definition concatenate_files (t : tree) (output_dir output_csv : string)
    : M event unit :=
  let files := pt_files (os_walk output_dir t) in
  dataframes ← for_collect files (fun file => lift (load_row file));
  match dataframes with
  | _ :: _ =>
      let concatenated_df := pd_concat dataframes in
      emit (EPrint (MsgShape (length concatenated_df) (df_width concatenated_df)));;
      emit (EToCsv output_csv concatenated_df);;
      emit (EPrint (MsgSavedCsv output_csv))
  | [] => emit (EPrint MsgNoData)
  end.

End Extract.

(** ** Specifications of computations *)

(** [sat P Q R m]: whatever the trace so far, [m] only appends events
    satisfying [P], raises only exceptions satisfying [Q] and returns only
    values satisfying [R]. *)
Definition sat {E A : Type} (P : E -> Prop) (Q : Py.exn -> Prop) (R : A -> Prop)
    (m : M E A) : Prop :=
  forall tr, exists new,
    (m tr).2 = tr ++ new /\ Forall P new /\
    match (m tr).1 with
    | inl e => Q e
    | inr a => R a
    end.

(** Events of the inference loop proper: a forward pass, or the writing of
    a per-sequence file. *)
Definition is_inference_event {elt : Type} (ev : @event elt) : bool :=
  match ev with
  | EForward _ _ _ | ESave _ _ _ => true
  | _ => false
  end.

(** Events that construct batches or touch the output tree. *)
Definition is_batch_or_output_event {elt : Type} (ev : @event elt) : bool :=
  match ev with
  | EReadFasta _ | EBatchIndices _ | EMkdir _ | EMkdirParent _ _
  | EForward _ _ _ | ESave _ _ _ | EToCsv _ _ => true
  | _ => false
  end.

(** The same for a step without events: [r] raises only exceptions
    satisfying [Q] and returns only values satisfying [R]. *)
Definition esat {A : Type} (Q : Py.exn -> Prop) (R : A -> Prop) (r : Py.exn + A) : Prop :=
  match r with
  | inl e => Q e
  | inr a => R a
  end.

(** [stage flag key Rv r r']: [r'] is [r] after [if flag: r[key] = x] for
    some [x] satisfying [Rv]. *)
Definition stage {elt : Type} (flag : bool) (key : string) (Rv : @value elt -> Prop)
    (r r' : gmap string value) : Prop :=
  if flag then exists x, Rv x /\ r' = <[key := x]> r else r' = r.

(** [layers_of entry reps x]: [x] is a by-layer dictionary each of whose
    entries is [entry] applied to that layer's tensor in [reps]. *)
Definition layers_of {elt : Type} (entry : list (list (list elt)) -> Py.exn + tensor)
    (reps : list (Z * list (list (list elt)))) (x : @value elt) : Prop :=
  exists d, x = VLayers d /\
    forall k w, (k, w) ∈ d -> exists t, (k, t) ∈ reps /\ entry t = inr w.

(** What [seq_result] returns: the label entry, then one entry per
    requested kind; the only exception it can raise is [IndexError]. *)
Definition seq_result_post {elt : Type} (mean0 : list (list elt) -> list elt)
    (args : Args) (reps : list (Z * list (list (list elt))))
    (contacts : list (list (list elt))) (i : nat) (label : string)
    (strs : list string) (result : gmap string (@value elt)) : Prop :=
  exists s r1 r2 r3,
    strs !! i = Some s /\
    stage (Py.str_in_list "per_tok" (include args)) "representations"
      (layers_of (per_tok_entry (truncate_len args s) i) reps)
      {["label" := VStr label]} r1 /\
    stage (Py.str_in_list "mean" (include args)) "mean_representations"
      (layers_of (mean_entry mean0 (truncate_len args s) i) reps) r1 r2 /\
    stage (Py.str_in_list "bos" (include args)) "bos_representations"
      (layers_of (bos_entry i) reps) r2 r3 /\
    stage (return_contacts args) "contacts"
      (fun x => contacts_value (truncate_len args s) i contacts = inr x) r3 result.

(** The batches the data loader yields for [args]. *)
Definition batches_of {elt : Type} (env : @Env elt) (args : Args) : list Batch :=
  data_loader env (from_file env (fasta_file args)) (toks_per_batch args).

Definition model_of {elt : Type} (env : @Env elt) (args : Args) : Model :=
  load_model_and_alphabet env (model_location args).

(** [-(L + 1) <= i <= L] for every requested layer. *)
Definition layers_ok {elt : Type} (env : @Env elt) (args : Args) : bool :=
  forallb (layer_in_range (Z.of_nat (num_layers (model_of env args)))) (repr_layers args).

(** What every event of a run satisfies. A forward pass happens on the
    tokens of a batch, with the normalized layers, after the range check
    passed on a supported model. A saved file is named after a label of a
    batch and holds the result built for it from the output of the forward
    pass on that batch. *)
Definition run_event_ok {elt : Type} (mean0 : list (list elt) -> list elt)
    (env : @Env elt) (args : Args) (ev : @event elt) : Prop :=
  let L := Z.of_nat (num_layers (model_of env args)) in
  let layers := map (normalize_layer L) (repr_layers args) in
  match ev with
  | EForward toks0 layers0 rc =>
      is_MSATransformer (model_of env args) = false /\
      layers_ok env args = true /\
      layers0 = layers /\ rc = return_contacts args /\
      exists b, b ∈ batches_of env args /\ toks0 = toks b
  | ESave dir name result =>
      exists b i label reps contacts,
        b ∈ batches_of env args /\ labels b !! i = Some label /\
        dir = output_dir args /\ name = label +:+ ".pt" /\
        dict_comp inr
          (out_representations
             (forward (model_of env args) (toks b) layers (return_contacts args)))
          [] = inr reps /\
        (return_contacts args = true ->
         out_contacts
           (forward (model_of env args) (toks b) layers (return_contacts args))
         = Some contacts) /\
        seq_result mean0 args reps contacts i label (strs b) = inr result
  | _ => True
  end.

(** What every exception of a run satisfies. *)
Definition run_exn_ok {elt : Type} (env : @Env elt) (args : Args) (e : Py.exn) : Prop :=
  match e with
  | Py.ValueError msg =>
      is_MSATransformer (model_of env args) = true /\ msg = msa_message
  | Py.AssertionError =>
      is_MSATransformer (model_of env args) = false /\ layers_ok env args = false
  | Py.KeyError k => k = "contacts"
  | Py.IndexError => True
  | Py.AttributeError _ => False
  end.

(** The key a value of [--include] contributes to a result, and the key
    set a list of such values determines. *)
Definition contributed_key (flag : string) : gset string :=
  if String.eqb flag "per_tok" then {["representations"]}
  else if String.eqb flag "mean" then {["mean_representations"]}
  else if String.eqb flag "bos" then {["bos_representations"]}
  else if String.eqb flag "contacts" then {["contacts"]}
  else ∅.

Definition include_keys (include : list string) : gset string :=
  ⋃ (contributed_key <$> include).

(** [token_rows i n t toks]: in batch element [i] of [t], the row of the
    BOS token is followed by the [n] rows [toks] of the sequence's own
    tokens, and then by whatever the batch converter appended (EOS,
    padding). *)
Definition token_rows {elt : Type} (i n : nat) (t : list (list (list elt)))
    (toks : list (list elt)) : Prop :=
  exists bos rest, t !! i = Some (bos :: toks ++ rest) /\ length toks = n.

(** [covers n c]: the matrix [c] has at least [n] rows and [n] columns. *)
Definition covers {elt : Type} (n : nat) (c : list (list elt)) : Prop :=
  (n <= length c)%nat /\ Forall (fun row => (n <= length row)%nat) c.

(** The saved per-token tensors have min(truncation, length) rows, and the
    saved contact map has that many rows and columns. *)
Definition sliced_to_truncate_len {elt : Type} (args : Args) (s : string)
    (result : gmap string (@value elt)) : Prop :=
  let tl := Z.min (truncation_seq_length args) (Z.of_nat (String.length s)) in
  (forall d layer m,
     result !! "representations" = Some (VLayers d) -> (layer, T2 m) ∈ d ->
     Z.of_nat (length m) = tl) /\
  (forall m,
     result !! "contacts" = Some (VTensor (T2 m)) ->
     Z.of_nat (length m) = tl /\ Forall (fun row => Z.of_nat (length row) = tl) m).

(** The loading loop of the concatenator without its trace: the frames of
    the files in order, or the first exception. *)
Fixpoint load_rows {elt : Type} (files : list (string * gmap string (@value elt)))
    : Py.exn + list (list (value * list (option cell))) :=
  match files with
  | [] => inr []
  | file :: files' =>
      ebind (load_row file) (fun df =>
      ebind (load_rows files') (fun dfs => inr (df :: dfs)))
  end.

(** A file the concatenator can turn into a row: it has a label, and its
    mean representations are a non-empty by-layer dictionary whose last
    entry is [(key, t)]. *)
Definition row_ready {elt : Type} (d : gmap string (@value elt))
    (label : value) (key : Z) (t : tensor) : Prop :=
  d !! "label" = Some label /\
  exists layers,
    d !! "mean_representations" = Some (VLayers layers) /\
    last layers = Some (key, t).


(** [p] occurs in [s]. *)
Definition occurs_in (p s : string) : Prop :=
  exists a b, s = a +:+ p +:+ b.

(** ** A small concrete setting *)

Module Sample.

(** Integer elements, with the column-wise integer average for [mean(0)]. *)
Definition mean0 (m : list (list Z)) : list Z :=
  match m with
  | [] => []
  | r :: _ =>
      map (fun j => fold_right Z.add 0 (map (fun row => nth j row 0) m)
                    / Z.of_nat (length m))
          (seq 0 (length r))
  end.

(** Token ids 0, 1 and 2 stand for BOS, padding and EOS. Every token is
    represented at every layer by [token; layer]; the contact of positions
    [r] and [c] is [10 r + c], over the positions between BOS and EOS. *)
Definition model_forward (toks : list (list Z)) (layers : list Z) (rc : bool)
    : @ModelOut Z :=
  {| out_representations :=
       map (fun l => (l, map (map (fun tok => [tok; l])) toks)) layers;
     out_contacts :=
       if rc then
         Some (map (fun row =>
                      let n := (length row - 2)%nat in
                      map (fun r => map (fun c => Z.of_nat (10 * r + c)) (seq 0 n))
                          (seq 0 n))
                   toks)
       else None |}.

Definition esm : @Model Z :=
  {| is_MSATransformer := false; num_layers := 2; forward := model_forward |}.

Definition msa : @Model Z :=
  {| is_MSATransformer := true; num_layers := 2; forward := model_forward |}.

(** Two sequences, [>a MK] and [>b MKVL], in one batch. *)
Definition batch : Batch :=
  {| labels := ["a"; "b"];
     strs := ["MK"; "MKVL"];
     toks := [[0; 20; 15; 2; 1; 1]; [0; 20; 15; 7; 4; 2]] |}.

Definition env : @Env Z :=
  {| load_model_and_alphabet :=
       fun location => if String.eqb location "msa" then msa else esm;
     mps_is_available := false;
     cuda_is_available := false;
     from_file := fun _ => [("a", "MK"); ("b", "MKVL")];
     data_loader := fun _ _ => [batch] |}.

Definition args (location : string) (layers : list Z) (include : list string)
    (truncation : Z) : Args :=
  {| model_location := location;
     fasta_file := "seqs.fasta";
     output_dir := "out";
     toks_per_batch := 4096;
     repr_layers := layers;
     include := include;
     truncation_seq_length := truncation;
     nogpu := false;
     concatenate_dir := None |}.

(** Saved results: one with mean representations of two layers, one of a
    run that only asked for the BOS representations. *)
Definition file_a : gmap string (@value Z) :=
  {["label" := VStr "a";
    "mean_representations" := VLayers [(1, T1 [4; 5]); (2, T1 [6; 7])]]}.

Definition file_b : gmap string (@value Z) :=
  {["label" := VStr "b"; "mean_representations" := VLayers [(2, T1 [8; 9])]]}.

Definition file_bos : gmap string (@value Z) :=
  {["label" := VStr "c"; "bos_representations" := VLayers [(2, T1 [0; 2])]]}.

Definition tree_mean : @tree Z :=
  Dir [("a.pt", file_a); ("notes.txt", file_bos)] [("sub", Dir [("b.pth", file_b)] [])].

Definition tree_bos : @tree Z := Dir [("c.pt", file_bos)] [].

Definition tree_empty : @tree Z := Dir [("notes.txt", file_a)] [("sub", Dir [] [])].

End Sample.

(** ** The entry point *)

(** Events of [main]: those of the run and of the concatenation, and the
    message printed when the concatenation is skipped. *)
Inductive main_event {elt : Type} : Type :=
| InRun (ev : @event elt)
| MsgSkipping.

(** [f"{args.concatenate_dir}/{fasta_file_name}_{args.model_location}.csv"],
    where [stem] is [pathlib]'s [.stem]. *)
Definition output_csv (stem : string -> string) (args : Args) (dir : string) : string :=
  dir +:+ "/" +:+ stem (fasta_file args) +:+ "_" +:+ model_location args +:+ ".csv".

(** [main()], once the command line is parsed into [args]. [walk_tree tr]
    is the tree [os.walk] finds under the output directory after the
    effects [tr]. The call of [to_csv] is an event; whether the file system
    accepts the write is outside the model. *)
Definition main {elt : Type} (mean0 : list (list elt) -> list elt) (env : @Env elt)
    (stem : string -> string) (walk_tree : list (@event elt) -> @tree elt)
    (args : Args) : (Py.exn + unit) * list (@main_event elt) :=
  match run mean0 env args [] with
  | (inl e, tr) => (inl e, InRun <$> tr)
  | (inr _, tr) =>
      match concatenate_dir args with
      | Some dir =>
          let r := concatenate_files (walk_tree tr) (output_dir args)
                     (output_csv stem args dir) tr in
          (r.1, InRun <$> r.2)
      | None => (inr tt, (InRun <$> tr) ++ [MsgSkipping])
      end
  end.

(** ** Views of a trace *)

(** The files written, as [(directory, name)], and the token batches sent
    through the model, in order. *)
Definition saved_file {elt : Type} (ev : @event elt) : list (string * string) :=
  match ev with
  | ESave dir name _ => [(dir, name)]
  | _ => []
  end.

Definition forwarded {elt : Type} (ev : @event elt) : list (list (list Z)) :=
  match ev with
  | EForward toks0 _ _ => [toks0]
  | _ => []
  end.

(** [yields view m xs]: when [m] returns, the view of the events it
    appended is [xs]. *)
Definition yields {E A X : Type} (view : E -> list X) (m : M E A) (xs : list X)
    : Prop :=
  forall tr a tr', m tr = (inr a, tr') ->
    exists new, tr' = tr ++ new /\ flat_map view new = xs.

(** [paired evs]: every save in [evs] comes right after the creation of the
    parent directory of the same file. *)
Fixpoint paired {elt : Type} (evs : list (@event elt)) : Prop :=
  match evs with
  | [] => True
  | EMkdirParent dir name :: evs' =>
      match evs' with
      | ESave dir' name' _ :: evs'' => dir' = dir /\ name' = name /\ paired evs''
      | _ => paired evs'
      end
  | ESave _ _ _ :: _ => False
  | _ :: evs' => paired evs'
  end.

(** What every event of a run satisfies, as to the machine and the file
    system: the model moves only to the selected accelerator and only when
    one is used, the device printed is the one the tokens are on, only the
    output directory and the parents of the saved files are created, and no
    CSV is written. *)
Definition run_effect_ok {elt : Type} (env : @Env elt) (args : Args) (ev : @event elt)
    : Prop :=
  let dev := get_device (mps_is_available env) (cuda_is_available env) in
  match ev with
  | ELoadModel location => location = model_location args
  | EModelTo d | EPrint (MsgTransferred d) =>
      nogpu args = false /\ d = dev /\ d <> cpu
  | EPrint (MsgDevice d) => d = (if nogpu args then cpu else dev)
  | EReadFasta path => path = fasta_file args
  | EMkdir path => path = output_dir args
  | EMkdirParent dir name | ESave dir name _ =>
      dir = output_dir args /\
      exists b label, b ∈ batches_of env args /\ label ∈ labels b /\
                      name = label +:+ ".pt"
  | EToCsv _ _ => False
  | _ => True
  end.

(** The rows of a table are as wide as the table, and a row consists of
    the cells [data] followed by missing cells only. *)
Definition padded_row {elt : Type} (w : nat) (data : list (@cell elt))
    (cells : list (option (@cell elt))) : Prop :=
  length cells = w /\ exists k, cells = (Some <$> data) ++ replicate k None.

(** [adds T m]: whatever the trace so far, the events [m] appends to it,
    taken together, satisfy [T]. *)
Definition adds {E A : Type} (T : list E -> Prop) (m : M E A) : Prop :=
  forall tr, exists new, (m tr).2 = tr ++ new /\ T new.


(** ** A second concrete setting *)

Module Scenario.



(** The sample environment with an empty FASTA file. *)
Definition env_empty : @Env Z :=
  {| load_model_and_alphabet := fun _ => Sample.esm;
     mps_is_available := false;
     cuda_is_available := true;
     from_file := fun _ => [];
     data_loader := fun _ _ => [] |}.

(** The sample environment on a machine with CUDA. *)
Definition env_cuda : @Env Z :=
  {| load_model_and_alphabet := load_model_and_alphabet Sample.env;
     mps_is_available := false;
     cuda_is_available := true;
     from_file := from_file Sample.env;
     data_loader := data_loader Sample.env |}.

Definition args (layers : list Z) (include : list string) (no_gpu : bool)
    (concatenate : option string) : Args :=
  {| model_location := "esm";
     fasta_file := "data/seqs.fasta";
     output_dir := "out";
     toks_per_batch := 4096;
     repr_layers := layers;
     include := include;
     truncation_seq_length := 1022;
     nogpu := no_gpu;
     concatenate_dir := concatenate |}.

Definition stem (path : string) : string := "seqs".

(** A file system in which the output directory holds exactly the files
    the effects saved, in the order they were saved. *)
Definition walk_tree (tr : list (@event Z)) : @tree Z :=
  Dir (flat_map (fun ev => match ev with
                           | ESave _ name result => [(name, result)]
                           | _ => []
                           end) tr) [].

(** The output of the sample model on the sample batch for the layers 1
    and 2, and the result built from it for sequence [a]. *)
Definition reps : list (Z * list (list (list Z))) :=
  out_representations (Sample.model_forward (toks Sample.batch) [1; 2] true).

Definition contacts : list (list (list Z)) :=
  default [] (out_contacts (Sample.model_forward (toks Sample.batch) [1; 2] true)).

Definition result (include : list string) : gmap string (@value Z) :=
  match seq_result Sample.mean0 (args [1; 2] include false None) reps contacts
          0 "a" (strs Sample.batch) with
  | inr r => r
  | inl _ => ∅
  end.




End Scenario.

(** * Properties *)

(** ** Device selection *)

(** C7: the device selector is total on the two probes: MPS when the MPS
    probe answers true, otherwise CUDA when the CUDA probe answers true,
    otherwise CPU; every combination yields one of the three, and CPU is
    the answer when both probes are false. *)
Theorem get_device_priority :
  (forall c, get_device true c = mps) /\
  get_device false true = cuda /\
  get_device false false = cpu /\
  (forall m c, exists! d, get_device m c = d /\ (d = mps \/ d = cuda \/ d = cpu)) /\
  (forall m c, get_device m c = cpu <-> m = false /\ c = false).
Proof.
  repeat split; try reflexivity.
  - destruct m, c; simpl; [exists mps | exists mps | exists cuda | exists cpu];
      (split; [tauto | intros d' [<- _]; reflexivity]).
  - destruct m; [discriminate | reflexivity].
  - destruct m, c; simpl in *; congruence.
  - intros [-> ->]; reflexivity.
Qed.

(** ** Layer indices *)

Lemma layer_in_range_spec (L i : Z) :
  layer_in_range L i = true <-> - (L + 1) <= i <= L.
Proof. unfold layer_in_range. rewrite andb_true_iff, !Z.leb_le. tauto. Qed.

(** A requested index in [-(L+1), L] is normalized to
    (i + L + 1) mod (L + 1), which lies in [0, L]; index -1 becomes L and a
    non-negative index is unchanged (a negative one is shifted by L + 1). *)
Theorem normalize_layer_in_range (L : nat) (i : Z) :
  - (Z.of_nat L + 1) <= i <= Z.of_nat L ->
  normalize_layer (Z.of_nat L) i = (i + Z.of_nat L + 1) `mod` (Z.of_nat L + 1) /\
  0 <= normalize_layer (Z.of_nat L) i <= Z.of_nat L /\
  (0 <= i -> normalize_layer (Z.of_nat L) i = i) /\
  (i < 0 -> normalize_layer (Z.of_nat L) i = i + Z.of_nat L + 1) /\
  normalize_layer (Z.of_nat L) (-1) = Z.of_nat L.
Proof.
  intros Hi. unfold normalize_layer. set (n := Z.of_nat L) in *.
  assert (Hn : 0 <= n) by (subst n; lia).
  assert (Hpos : forall j, 0 <= j -> (j + n + 1) `mod` (n + 1) = j `mod` (n + 1)).
  { intros j _. replace (j + n + 1) with (j + 1 * (n + 1)) by lia.
    apply Z.mod_add. lia. }
  assert (Hneg : forall j, - (n + 1) <= j < 0 -> (j + n + 1) `mod` (n + 1) = j + n + 1).
  { intros j Hj. apply Z.mod_small. lia. }
  split; [reflexivity |]. split.
  - pose proof (Z.mod_pos_bound (i + n + 1) (n + 1)). lia.
  - split; [| split].
    + intros H0. rewrite Hpos by assumption. apply Z.mod_small. lia.
    + intros H0. apply Hneg. lia.
    + rewrite Hneg by lia. lia.
Qed.

Lemma normalize_layer_in_range_witness :
  - (Z.of_nat 33 + 1) <= -1 <= Z.of_nat 33 /\
  normalize_layer (Z.of_nat 33) (-1) = Z.of_nat 33.
Proof.
  split; [simpl; lia |].
  apply (normalize_layer_in_range 33 (-1)). simpl; lia.
Defined.

(** ** Reasoning about computations *)

Section Sat.

Context {E : Type}.
Implicit Types (P : E -> Prop) (Q : Py.exn -> Prop).

Lemma sat_ret {A} P Q (R : A -> Prop) (a : A) : R a -> sat P Q R (ret a).
Proof. intros Ha tr. exists []. rewrite app_nil_r. simpl. auto. Qed.

Lemma sat_emit P Q (R : unit -> Prop) (ev : E) :
  P ev -> R tt -> sat P Q R (emit ev).
Proof. intros Hev Hr tr. exists [ev]. simpl. auto. Qed.

Lemma sat_emit_any P Q (ev : E) : P ev -> sat P Q (fun _ => True) (emit ev).
Proof. intros Hev. by apply sat_emit. Qed.

Lemma sat_raise {A} P Q (R : A -> Prop) (e : Py.exn) : Q e -> sat P Q R (raise e).
Proof. intros He tr. exists []. rewrite app_nil_r. simpl. auto. Qed.

Lemma sat_lift {A} P Q (R : A -> Prop) (r : Py.exn + A) :
  match r with inl e => Q e | inr a => R a end -> sat P Q R (lift r).
Proof. intros Hr tr. exists []. rewrite app_nil_r. simpl. auto. Qed.

Lemma sat_bind {A B} P Q (R1 : A -> Prop) (R2 : B -> Prop)
    (m : M E A) (k : A -> M E B) :
  sat P Q R1 m -> (forall a, R1 a -> sat P Q R2 (k a)) -> sat P Q R2 (bind m k).
Proof.
  intros Hm Hk tr. destruct (Hm tr) as (new1 & Htr & Hnew1 & Hres).
  unfold bind. destruct (m tr) as [[e | a] tr1]; simpl in *; subst tr1.
  - exists new1. auto.
  - destruct (Hk a Hres (tr ++ new1)) as (new2 & Htr2 & Hnew2 & Hres2).
    exists (new1 ++ new2). rewrite Htr2, app_assoc.
    split; [reflexivity |]. split; [apply Forall_app; auto | assumption].
Qed.

Lemma sat_for_each {A} P Q (l : list A) (body : A -> M E unit) :
  (forall x, x ∈ l -> sat P Q (fun _ => True) (body x)) ->
  sat P Q (fun _ => True) (for_each l body).
Proof.
  induction l as [| x l IH]; intros Hbody; simpl.
  - by apply sat_ret.
  - eapply sat_bind.
    + apply Hbody. left.
    + intros _ _. apply IH. intros y Hy. apply Hbody. by right.
Qed.

End Sat.

(** One [emit] whose event is trivially admissible, then the rest. *)
Ltac emit_step :=
  eapply sat_bind; [apply sat_emit_any; exact I | intros _ _].

(** Unfolds stdpp's monad notation to [bind] and [ret]. *)
Ltac unfold_monad :=
  unfold mbind, M_bind, mret, M_ret, exn_bind, exn_ret in *.

Section ESat.

Implicit Types (Q : Py.exn -> Prop).

Lemma esat_bind {A B} Q (R1 : A -> Prop) (R2 : B -> Prop)
    (r : Py.exn + A) (k : A -> Py.exn + B) :
  esat Q R1 r -> (forall a, R1 a -> esat Q R2 (k a)) -> esat Q R2 (ebind r k).
Proof. destruct r as [e | a]; simpl; auto. Qed.

Lemma esat_weaken {A} Q Q' (R R' : A -> Prop) (r : Py.exn + A) :
  (forall e, Q e -> Q' e) -> (forall a, R a -> R' a) -> esat Q R r -> esat Q' R' r.
Proof. destruct r; simpl; auto. Qed.

Lemma esat_getitem {A} Q (l : list A) (i : nat) :
  Q Py.IndexError -> esat Q (fun x => l !! i = Some x) (Py.getitem l i).
Proof. intros HQ. unfold Py.getitem. destruct (l !! i); simpl; auto. Qed.

Lemma elem_of_dict_set {K V} `{EqDecision K} (k k' : K) (v v' : V) (d : list (K * V)) :
  (k', v') ∈ Py.dict_set k v d -> (k', v') = (k, v) \/ (k', v') ∈ d.
Proof.
  induction d as [| [k0 v0] d IH]; simpl.
  - intros ->%list_elem_of_singleton. by left.
  - destruct (decide (k = k0)) as [-> | Hne].
    + intros [-> | Hin]%elem_of_cons; [by left | right; by right].
    + intros [-> | Hin]%elem_of_cons; [right; by left |].
      destruct (IH Hin) as [-> | Hd]; [by left | right; by right].
Qed.

Lemma esat_dict_comp {K V W} `{EqDecision K} Q (f : V -> Py.exn + W)
    (items : list (K * V)) (acc : list (K * W)) :
  (forall k v e, (k, v) ∈ items -> f v = inl e -> Q e) ->
  esat Q (fun d => forall k w, (k, w) ∈ d ->
                     (k, w) ∈ acc \/ exists v, (k, v) ∈ items /\ f v = inr w)
       (dict_comp f items acc).
Proof.
  revert acc. induction items as [| [k v] items IH]; intros acc Hf; simpl.
  - auto.
  - destruct (f v) as [e | w] eqn:Hfv; simpl.
    + apply (Hf k v e); [left | exact Hfv].
    + eapply esat_weaken; [| | apply IH].
      * auto.
      * intros d Hd k' w' Hin.
        destruct (Hd k' w' Hin) as [Hacc | (v' & Hv' & Hfv')].
        -- apply elem_of_dict_set in Hacc as [[= -> ->] | Hacc]; [| by left].
           right. exists v. split; [left | exact Hfv].
        -- right. exists v'. split; [by right | exact Hfv'].
      * intros k' v' e Hin. apply (Hf k' v' e). by right.
Qed.

End ESat.

(** ** Unsupported architecture *)

Section Runner.

Context {elt : Type} (mean0 : list (list elt) -> list elt).
Implicit Types (env : @Env elt) (args : Args).

(** C5: when the loaded model is an MSA Transformer, the runner raises
    [ValueError] with the message right after loading the model and
    switching it to evaluation mode; these are the only two effects, so no
    batch was constructed or processed and no directory or file created. *)
Theorem run_msa_fails_fast env args (tr : list event) :
  is_MSATransformer (load_model_and_alphabet env (model_location args)) = true ->
  run mean0 env args tr =
    (inl (Py.ValueError msa_message),
     tr ++ [ELoadModel (model_location args); EModelEval]) /\
  Forall (fun ev => is_batch_or_output_event ev = false)
         [@ELoadModel elt (model_location args); EModelEval].
Proof.
  intros Hmsa. split.
  - unfold run. unfold_monad. unfold bind, emit, raise. simpl.
    rewrite Hmsa. by rewrite <- app_assoc.
  - repeat constructor.
Qed.

(** ** The per-sequence result *)

Lemma esat_set_if Q (Rv : @value elt -> Prop) flag key v (r : gmap string value) :
  (flag = true -> esat Q Rv v) -> esat Q (stage flag key Rv r) (set_if flag key v r).
Proof.
  unfold set_if, stage. destruct flag; [| reflexivity].
  intros Hv. specialize (Hv eq_refl). unfold_monad.
  destruct v as [e | x]; simpl in *; eauto.
Qed.

Lemma esat_layers_value Q entry (reps : list (Z * list (list (list elt)))) :
  (forall t e, entry t = inl e -> Q e) ->
  esat Q (layers_of entry reps) (layers_value entry reps).
Proof.
  intros Hentry. unfold layers_value. unfold_monad.
  eapply esat_bind.
  - apply esat_dict_comp. intros k t e _. apply Hentry.
  - intros d Hd. simpl. exists d. split; [reflexivity |].
    intros k w Hin. destruct (Hd k w Hin) as [Hnil | Hv]; [| exact Hv].
    by apply not_elem_of_nil in Hnil.
Qed.

Lemma getitem_raises {A} (l : list A) i e : Py.getitem l i = inl e -> e = Py.IndexError.
Proof. unfold Py.getitem. destruct (l !! i); congruence. Qed.

Lemma per_tok_slice_raises tl i t e :
  per_tok_slice (elt:=elt) tl i t = inl e -> e = Py.IndexError.
Proof.
  unfold per_tok_slice. unfold_monad.
  destruct (Py.getitem t i) eqn:Hg; simpl; [| discriminate].
  intros [= <-]. eauto using getitem_raises.
Qed.

Lemma per_tok_entry_raises tl i t e :
  per_tok_entry (elt:=elt) tl i t = inl e -> e = Py.IndexError.
Proof.
  unfold per_tok_entry. unfold_monad.
  destruct (per_tok_slice tl i t) eqn:Hs; simpl; [| discriminate].
  intros [= <-]. eauto using per_tok_slice_raises.
Qed.

Lemma mean_entry_raises tl i t e :
  mean_entry mean0 tl i t = inl e -> e = Py.IndexError.
Proof.
  unfold mean_entry. unfold_monad.
  destruct (per_tok_slice tl i t) eqn:Hs; simpl; [| discriminate].
  intros [= <-]. eauto using per_tok_slice_raises.
Qed.

Lemma bos_entry_raises i t e :
  bos_entry (elt:=elt) i t = inl e -> e = Py.IndexError.
Proof.
  unfold bos_entry. unfold_monad.
  destruct (Py.getitem t i) as [e1 | row] eqn:Hg; simpl.
  - intros [= <-]. eauto using getitem_raises.
  - destruct (Py.getitem row 0%nat) eqn:Hr; simpl; [| discriminate].
    intros [= <-]. eauto using getitem_raises.
Qed.

Lemma contacts_value_raises tl i contacts e :
  contacts_value (elt:=elt) tl i contacts = inl e -> e = Py.IndexError.
Proof.
  unfold contacts_value, contacts_slice. unfold_monad.
  destruct (Py.getitem contacts i) eqn:Hg; simpl; [| discriminate].
  intros [= <-]. eauto using getitem_raises.
Qed.

Lemma seq_result_esat args reps contacts i label strs :
  esat (fun e => e = Py.IndexError)
       (seq_result_post mean0 args reps contacts i label strs)
       (seq_result mean0 args reps contacts i label strs).
Proof.
  unfold seq_result. unfold_monad.
  eapply esat_bind; [by apply esat_getitem |]. intros s Hs. simpl.
  eapply esat_bind.
  { apply esat_set_if. intros _. apply esat_layers_value, per_tok_entry_raises. }
  intros r1 H1. simpl.
  eapply esat_bind.
  { apply esat_set_if. intros _. apply esat_layers_value, mean_entry_raises. }
  intros r2 H2. simpl.
  eapply esat_bind.
  { apply esat_set_if. intros _. apply esat_layers_value, bos_entry_raises. }
  intros r3 H3. simpl.
  eapply esat_weaken; [| | apply esat_set_if].
  - intros e He. exact He.
  - intros result H4. exists s, r1, r2, r3. eauto.
  - intros _. destruct (contacts_value _ _ _) eqn:Hc; simpl; [| reflexivity].
    eauto using contacts_value_raises.
Qed.

(** ** The run as a whole *)

Lemma elem_of_enumerate_from {A} (k : nat) (l : list A) (i : nat) (x : A) :
  (i, x) ∈ Py.enumerate_from k l -> (k <= i)%nat /\ l !! (i - k)%nat = Some x.
Proof.
  revert k. induction l as [| y l IH]; intros k; simpl.
  - intros Hin. by apply not_elem_of_nil in Hin.
  - intros [[= -> ->] | Hin]%elem_of_cons.
    + split; [lia |]. by rewrite Nat.sub_diag.
    + destruct (IH _ Hin) as [Hle Hl]. split; [lia |].
      replace (i - k)%nat with (S (i - S k)) by lia. exact Hl.
Qed.

Lemma elem_of_enumerate {A} (l : list A) (i : nat) (x : A) :
  (i, x) ∈ Py.enumerate l -> l !! i = Some x.
Proof.
  intros Hin. apply elem_of_enumerate_from in Hin as [_ Hl].
  by rewrite Nat.sub_0_r in Hl.
Qed.

Lemma run_sat env args :
  sat (run_event_ok mean0 env args) (run_exn_ok env args) (fun _ => True)
      (run mean0 env args).
Proof.
  unfold run. unfold_monad. fold (model_of env args).
  emit_step.
  emit_step.
  destruct (is_MSATransformer (model_of env args)) eqn:Hmsa.
  { apply sat_raise. simpl. auto. }
  eapply sat_bind with (R1 := fun _ => True).
  { destruct (use_accelerator _ _).
    - emit_step. by apply sat_emit_any.
    - by apply sat_ret. }
  intros _ _.
  emit_step.
  emit_step.
  emit_step.
  emit_step.
  fold (layers_ok env args). fold (batches_of env args).
  destruct (layers_ok env args) eqn:Hok; simpl.
  2: { apply sat_raise. simpl. auto. }
  eapply sat_bind; [| intros _ _; by apply sat_emit_any].
  apply sat_for_each. intros [batch_idx b] Hb%elem_of_enumerate.
  apply list_elem_of_lookup_2 in Hb.
  unfold process_batch. unfold_monad.
  emit_step.
  emit_step.
  eapply sat_bind.
  { apply sat_emit_any.
    simpl. rewrite Hmsa, Hok. eauto 10. }
  intros _ _.
  set (out := forward _ _ _ _).
  eapply sat_bind with
    (R1 := fun reps => dict_comp inr (out_representations out) [] = inr reps).
  { apply sat_lift. destruct (dict_comp inr _ _) as [e | reps] eqn:Hd; [| reflexivity].
    pose proof (esat_dict_comp (fun _ => False) inr (out_representations out) []) as Hs.
    rewrite Hd in Hs. simpl in Hs. exfalso. apply Hs. intros; discriminate. }
  intros reps Hreps.
  eapply sat_bind with
    (R1 := fun contacts =>
             return_contacts args = true -> out_contacts out = Some contacts).
  { destruct (return_contacts args).
    - destruct (out_contacts out) as [c |].
      + by apply sat_ret.
      + by apply sat_raise.
    - apply sat_ret. discriminate. }
  intros contacts Hcontacts.
  apply sat_for_each. intros [i label] Hi%elem_of_enumerate.
  unfold process_sequence. unfold_monad.
  emit_step.
  eapply sat_bind with
    (R1 := fun result =>
             seq_result mean0 args reps contacts i label (strs b) = inr result).
  { apply sat_lift.
    pose proof (seq_result_esat args reps contacts i label (strs b)) as Hs.
    destruct (seq_result _ _ _ _ _ _ _) as [e | result]; simpl in *;
      [by subst e | reflexivity]. }
  intros result Hresult.
  apply sat_emit_any.
  simpl. exists b, i, label, reps, contacts. eauto 10.
Qed.

Lemma run_events env args (ev : event) :
  ev ∈ (run mean0 env args []).2 -> run_event_ok mean0 env args ev.
Proof.
  intros Hin. destruct (run_sat env args []) as (new & Htr & Hnew & _).
  rewrite Htr in Hin. simpl in Hin.
  rewrite Forall_forall in Hnew. by apply Hnew.
Qed.

Lemma layers_ok_spec env args :
  layers_ok env args = true <->
  Forall (fun i => - (Z.of_nat (num_layers (model_of env args)) + 1) <= i
                   <= Z.of_nat (num_layers (model_of env args)))
         (repr_layers args).
Proof.
  unfold layers_ok. rewrite forallb_forall, Forall_forall.
  split; intros H i Hi.
  - apply layer_in_range_spec, H. by apply list_elem_of_In.
  - apply layer_in_range_spec, H. by apply list_elem_of_In.
Qed.

(** Every forward pass of a run receives the requested layers normalized
    one by one, and happens only when all of them are in range. *)
Lemma run_forward_layers env args toks0 layers rc :
  EForward toks0 layers rc ∈ (run mean0 env args []).2 ->
  let L := Z.of_nat (num_layers (model_of env args)) in
  layers = map (fun i => (i + L + 1) `mod` (L + 1)) (repr_layers args) /\
  Forall (fun i => - (L + 1) <= i <= L) (repr_layers args).
Proof.
  intros Hin%run_events. simpl in Hin.
  destruct Hin as (_ & Hok & -> & _). split; [reflexivity |].
  by apply layers_ok_spec.
Qed.

(** C3: in every forward pass of a run, the model receives, for each
    requested layer index [i] in turn, the index (i + L + 1) mod (L + 1),
    where L is the layer count of the model and [i] lies in [-(L+1), L];
    the index passed lies in [0, L], index -1 is passed as L and a
    non-negative index is passed unchanged. *)
Theorem run_normalizes_layers env args toks0 layers rc :
  EForward toks0 layers rc ∈ (run mean0 env args []).2 ->
  let L := Z.of_nat (num_layers (model_of env args)) in
  Forall2 (fun i j => - (L + 1) <= i <= L /\
                      j = (i + L + 1) `mod` (L + 1) /\
                      0 <= j <= L /\
                      (0 <= i -> j = i) /\
                      (i < 0 -> j = i + L + 1) /\
                      (i = -1 -> j = L))
          (repr_layers args) layers.
Proof.
  intros Hin L. destruct (run_forward_layers env args toks0 layers rc Hin) as [-> Hrange].
  fold L in Hrange |- *. clear Hin.
  induction Hrange as [| i l Hi _ IH]; simpl; constructor; [| exact IH].
  destruct (normalize_layer_in_range (num_layers (model_of env args)) i Hi)
    as (Hmod & Hbound & Hpos & Hneg & Hlast).
  fold L in Hmod, Hbound, Hpos, Hneg, Hlast. unfold normalize_layer in *.
  repeat split; try done; lia.
Qed.

(** ** Out-of-range layer indices *)

(** C4 (amended): on a model that is not an MSA Transformer, a layer list
    with an index below -(L+1) or above L makes the run raise
    [AssertionError] before any forward pass and before any per-sequence
    file is written; when every index lies in [-(L+1), L] the run never
    raises [AssertionError]. *)
Theorem run_layer_assertion env args (tr : list event) :
  is_MSATransformer (model_of env args) = false ->
  let L := Z.of_nat (num_layers (model_of env args)) in
  (Exists (fun i => i < - (L + 1) \/ L < i) (repr_layers args) ->
   exists new,
     run mean0 env args tr = (inl Py.AssertionError, tr ++ new) /\
     Forall (fun ev => is_inference_event ev = false) new) /\
  (Forall (fun i => - (L + 1) <= i <= L) (repr_layers args) ->
   (run mean0 env args tr).1 <> inl Py.AssertionError).
Proof.
  intros Hmsa L. split.
  - intros Hex.
    assert (Hok : layers_ok env args = false).
    { destruct (layers_ok env args) eqn:Hok; [| reflexivity].
      apply layers_ok_spec in Hok. fold L in Hok.
      apply Exists_exists in Hex as (i & Hi & Hbad).
      rewrite Forall_forall in Hok. specialize (Hok i Hi). lia. }
    unfold run. unfold_monad. fold (model_of env args). fold (layers_ok env args).
    unfold bind, emit, raise, ret. simpl. rewrite Hmsa.
    destruct (use_accelerator _ _); simpl; rewrite Hok; simpl;
      rewrite <- !app_assoc; simpl;
      (eexists; split; [reflexivity | repeat constructor]).
  - intros Hall Hraise.
    destruct (run_sat env args tr) as (new & _ & _ & Hres).
    destruct ((run mean0 env args tr).1) as [e |]; [| discriminate].
    injection Hraise as ->. simpl in Hres. destruct Hres as [_ Hok].
    apply layers_ok_spec in Hall. congruence.
Qed.

(** ** Keys of a saved result *)

Lemma stage_lookup_ne flag key (Rv : @value elt -> Prop) (r r' : gmap string value) k :
  stage flag key Rv r r' -> key <> k -> r' !! k = r !! k.
Proof.
  unfold stage. destruct flag.
  - intros (x & _ & ->) Hne. by rewrite lookup_insert_ne.
  - by intros ->.
Qed.

Lemma stage_dom flag key (Rv : @value elt -> Prop) (r r' : gmap string value) :
  stage flag key Rv r r' ->
  dom r' = (if flag then {[key]} else ∅) ∪ dom r.
Proof.
  unfold stage. destruct flag.
  - intros (x & _ & ->). by rewrite dom_insert_L.
  - intros ->. by rewrite (left_id_L ∅ (∪)).
Qed.

Lemma seq_result_inr args reps contacts i label strs result :
  seq_result mean0 args reps contacts i label strs = inr result ->
  seq_result_post mean0 args reps contacts i label strs result.
Proof.
  intros H. pose proof (seq_result_esat args reps contacts i label strs) as Hs.
  by rewrite H in Hs.
Qed.

Lemma seq_result_label args reps contacts i label strs result :
  seq_result mean0 args reps contacts i label strs = inr result ->
  result !! "label" = Some (VStr label).
Proof.
  intros (s & r1 & r2 & r3 & _ & H1 & H2 & H3 & H4)%seq_result_inr.
  rewrite (stage_lookup_ne _ _ _ _ _ "label" H4) by discriminate.
  rewrite (stage_lookup_ne _ _ _ _ _ "label" H3) by discriminate.
  rewrite (stage_lookup_ne _ _ _ _ _ "label" H2) by discriminate.
  rewrite (stage_lookup_ne _ _ _ _ _ "label" H1) by discriminate.
  apply lookup_singleton_eq.
Qed.

Lemma seq_result_dom args reps contacts i label strs result :
  seq_result mean0 args reps contacts i label strs = inr result ->
  dom result =
    (if return_contacts args then {["contacts"]} else ∅) ∪
    ((if Py.str_in_list "bos" (include args) then {["bos_representations"]} else ∅) ∪
     ((if Py.str_in_list "mean" (include args) then {["mean_representations"]} else ∅) ∪
      ((if Py.str_in_list "per_tok" (include args) then {["representations"]} else ∅) ∪
       {["label"]}))).
Proof.
  intros (s & r1 & r2 & r3 & _ & H1 & H2 & H3 & H4)%seq_result_inr.
  rewrite (stage_dom _ _ _ _ _ H4), (stage_dom _ _ _ _ _ H3),
    (stage_dom _ _ _ _ _ H2), (stage_dom _ _ _ _ _ H1).
  by rewrite dom_singleton_L.
Qed.

Lemma str_in_list_spec (x : string) (l : list string) :
  Py.str_in_list x l = true <-> x ∈ l.
Proof.
  unfold Py.str_in_list. rewrite existsb_exists. split.
  - intros (y & Hy & ->%String.eqb_eq). by apply list_elem_of_In.
  - intros Hx. exists x. split; [by apply list_elem_of_In | apply String.eqb_refl].
Qed.

Lemma elem_of_contributed_key (x flag : string) :
  x ∈ contributed_key flag <->
  (flag = "per_tok" /\ x = "representations") \/
  (flag = "mean" /\ x = "mean_representations") \/
  (flag = "bos" /\ x = "bos_representations") \/
  (flag = "contacts" /\ x = "contacts").
Proof.
  unfold contributed_key.
  destruct (String.eqb_spec flag "per_tok") as [-> | H1].
  { rewrite elem_of_singleton. split; [intros ->; tauto |].
    intros [[_ ->] | [[? _] | [[? _] | [? _]]]]; [done | done..]. }
  destruct (String.eqb_spec flag "mean") as [-> | H2].
  { rewrite elem_of_singleton. split; [intros ->; tauto |].
    intros [[? _] | [[_ ->] | [[? _] | [? _]]]]; done. }
  destruct (String.eqb_spec flag "bos") as [-> | H3].
  { rewrite elem_of_singleton. split; [intros ->; tauto |].
    intros [[? _] | [[? _] | [[_ ->] | [? _]]]]; done. }
  destruct (String.eqb_spec flag "contacts") as [-> | H4].
  { rewrite elem_of_singleton. split; [intros ->; tauto |].
    intros [[? _] | [[? _] | [[? _] | [_ ->]]]]; done. }
  rewrite elem_of_empty. tauto.
Qed.

Lemma elem_of_include_keys (x : string) (include : list string) :
  x ∈ include_keys include <->
  ("per_tok" ∈ include /\ x = "representations") \/
  ("mean" ∈ include /\ x = "mean_representations") \/
  ("bos" ∈ include /\ x = "bos_representations") \/
  ("contacts" ∈ include /\ x = "contacts").
Proof.
  unfold include_keys. rewrite elem_of_union_list. split.
  - intros (X & HX & Hx). apply list_elem_of_fmap in HX as (flag & -> & Hflag).
    apply elem_of_contributed_key in Hx.
    destruct Hx as [[-> ->] | [[-> ->] | [[-> ->] | [-> ->]]]]; tauto.
  - intros H.
    assert (exists flag, flag ∈ include /\ x ∈ contributed_key flag) as (flag & Hin & Hx).
    { destruct H as [[? ->] | [[? ->] | [[? ->] | [? ->]]]];
        eexists; (split; [eassumption |]); apply elem_of_contributed_key; tauto. }
    exists (contributed_key flag). split; [| exact Hx].
    apply list_elem_of_fmap. eauto.
Qed.

Lemma seq_result_keys args reps contacts i label strs result :
  seq_result mean0 args reps contacts i label strs = inr result ->
  dom result = {["label"]} ∪ include_keys (include args).
Proof.
  intros Hdom%seq_result_dom. rewrite Hdom. apply set_eq. intros x.
  rewrite !elem_of_union, elem_of_include_keys, <- !str_in_list_spec.
  unfold return_contacts.
  destruct (Py.str_in_list "contacts" _), (Py.str_in_list "bos" _),
    (Py.str_in_list "mean" _), (Py.str_in_list "per_tok" _);
    rewrite ?elem_of_singleton, ?elem_of_empty; intuition congruence.
Qed.

(** C2 (amended): the key set of every saved per-sequence result is
    ['label'] together with the keys the [--include] values contribute
    ('per_tok' gives 'representations', 'mean' gives 'mean_representations',
    'bos' gives 'bos_representations', 'contacts' gives 'contacts'), and
    nothing else. *)
Theorem saved_result_keys env args dir name (result : gmap string value) :
  ESave dir name result ∈ (run mean0 env args []).2 ->
  dom result = {["label"]} ∪ include_keys (include args).
Proof.
  intros Hin%run_events. simpl in Hin.
  destruct Hin as (b & i & label & reps & contacts & _ & _ & _ & _ & _ & _ & Hres).
  eauto using seq_result_keys.
Qed.

(** C8: every saved per-sequence result maps 'label' to the label of the
    sequence it was built for, a label of one of the batches, and the file
    is named after that label; this holds whatever [--include] lists. *)
Theorem saved_result_label env args dir name (result : gmap string value) :
  ESave dir name result ∈ (run mean0 env args []).2 ->
  exists b label,
    b ∈ batches_of env args /\ label ∈ labels b /\
    dir = output_dir args /\ name = label +:+ ".pt" /\
    result !! "label" = Some (VStr label).
Proof.
  intros Hin%run_events. simpl in Hin.
  destruct Hin as (b & i & label & reps & contacts & Hb & Hl & -> & -> & _ & _ & Hres).
  exists b, label. repeat split; try done.
  - by eapply list_elem_of_lookup_2.
  - eauto using seq_result_label.
Qed.

(** ** Slices *)

Lemma slice_after_first {A} (tl : Z) (x : A) (l rest : list A) :
  0 <= tl <= Z.of_nat (length l) ->
  Py.slice 1 (tl + 1) (x :: l ++ rest) = take (Z.to_nat tl) l.
Proof.
  intros Htl. unfold Py.slice, Py.slice_index.
  rewrite length_cons, length_app.
  destruct (1 <? 0) eqn:H1; [lia |].
  destruct (tl + 1 <? 0) eqn:H2; [lia |].
  rewrite Z.min_l by lia. rewrite Z.min_l by lia.
  replace (Z.to_nat 1) with 1%nat by lia. simpl drop. rewrite drop_0.
  replace (tl + 1 - 1) with tl by lia.
  apply take_app_le. lia.
Qed.

Lemma slice_prefix {A} (tl : Z) (l : list A) :
  0 <= tl <= Z.of_nat (length l) -> Py.slice 0 tl l = take (Z.to_nat tl) l.
Proof.
  intros Htl. unfold Py.slice, Py.slice_index.
  destruct (0 <? 0) eqn:H1; [lia |].
  destruct (tl <? 0) eqn:H2; [lia |].
  rewrite Z.min_l by lia. rewrite Z.min_l by lia.
  simpl drop. by rewrite Z.sub_0_r.
Qed.

Lemma truncate_len_bounds args s :
  0 <= truncation_seq_length args ->
  0 <= truncate_len args s <= Z.of_nat (String.length s).
Proof. unfold truncate_len. lia. Qed.

Lemma per_tok_slice_token_rows args s i (t : list (list (list elt))) toks :
  0 <= truncation_seq_length args ->
  token_rows i (String.length s) t toks ->
  per_tok_slice (truncate_len args s) i t
  = inr (take (Z.to_nat (truncate_len args s)) toks).
Proof.
  intros Htr (bos & rest & Ht & Hlen).
  unfold per_tok_slice, Py.getitem. unfold_monad. rewrite Ht. simpl.
  f_equal. apply slice_after_first.
  pose proof (truncate_len_bounds args s Htr). lia.
Qed.

Lemma contacts_slice_covers args s i (contacts : list (list (list elt))) c :
  0 <= truncation_seq_length args ->
  contacts !! i = Some c -> covers (String.length s) c ->
  contacts_slice (truncate_len args s) i contacts
  = inr (take (Z.to_nat (truncate_len args s))
              (take (Z.to_nat (truncate_len args s)) <$> c)).
Proof.
  intros Htr Hc [Hrows Hcols].
  pose proof (truncate_len_bounds args s Htr) as Hb.
  unfold contacts_slice, Py.getitem. unfold_monad. rewrite Hc. simpl.
  f_equal. rewrite slice_prefix by lia.
  rewrite <- fmap_take. unfold fmap, list_fmap.
  apply map_ext_in. intros row Hrow%list_elem_of_In.
  apply slice_prefix.
  apply elem_of_take in Hrow as (j & Hj%list_elem_of_lookup_2 & _).
  rewrite Forall_forall in Hcols. specialize (Hcols row Hj). lia.
Qed.

(** ** Success of the per-sequence step *)

Lemma dict_comp_inr {K V W} `{EqDecision K} (f : V -> Py.exn + W)
    (items : list (K * V)) (acc : list (K * W)) :
  (forall k v, (k, v) ∈ items -> exists w, f v = inr w) ->
  exists d, dict_comp f items acc = inr d.
Proof.
  revert acc. induction items as [| [k v] items IH]; intros acc Hf; simpl.
  - eauto.
  - destruct (Hf k v) as [w ->]; [left |]. simpl.
    apply IH. intros k' v' Hin. apply (Hf k' v'). by right.
Qed.

Lemma layers_value_inr entry (reps : list (Z * list (list (list elt)))) :
  (forall k t, (k, t) ∈ reps -> exists w, entry t = inr w) ->
  exists x, layers_value (elt:=elt) entry reps = inr x.
Proof.
  intros Hentry. unfold layers_value. unfold_monad.
  destruct (dict_comp_inr entry reps [] Hentry) as [d ->]. simpl. eauto.
Qed.

Lemma set_if_inr flag key v (r : gmap string (@value elt)) :
  (flag = true -> exists x, v = inr x) -> exists r', set_if flag key v r = inr r'.
Proof.
  unfold set_if. destruct flag; [| eauto].
  intros Hv. destruct (Hv eq_refl) as [x ->]. unfold_monad. simpl. eauto.
Qed.

Lemma stage_lookup_fresh flag key (Rv : @value elt -> Prop)
    (r r' : gmap string value) x :
  stage flag key Rv r r' -> r !! key = None -> r' !! key = Some x -> Rv x.
Proof.
  unfold stage. destruct flag.
  - intros (y & Hy & ->) _. rewrite lookup_insert_eq. by intros [= <-].
  - intros -> Hnone Hsome. congruence.
Qed.

Lemma seq_result_succeeds args reps contacts i label strs s :
  strs !! i = Some s ->
  (forall layer t, (layer, t) ∈ reps -> exists bos row, t !! i = Some (bos :: row)) ->
  (return_contacts args = true -> is_Some (contacts !! i)) ->
  exists result, seq_result mean0 args reps contacts i label strs = inr result.
Proof.
  intros Hs Hreps Hcontacts. unfold seq_result. unfold_monad.
  unfold Py.getitem at 1. rewrite Hs. simpl.
  edestruct (set_if_inr (Py.str_in_list "per_tok" (include args)) "representations")
    as [r1 ->].
  { intros _. apply layers_value_inr. intros k t (bos & row & Ht)%Hreps.
    unfold per_tok_entry, per_tok_slice, Py.getitem. unfold_monad.
    rewrite Ht. simpl. eauto. }
  simpl.
  edestruct (set_if_inr (Py.str_in_list "mean" (include args)) "mean_representations")
    as [r2 ->].
  { intros _. apply layers_value_inr. intros k t (bos & row & Ht)%Hreps.
    unfold mean_entry, per_tok_slice, Py.getitem. unfold_monad.
    rewrite Ht. simpl. eauto. }
  simpl.
  edestruct (set_if_inr (Py.str_in_list "bos" (include args)) "bos_representations")
    as [r3 ->].
  { intros _. apply layers_value_inr. intros k t (bos & row & Ht)%Hreps.
    unfold bos_entry, Py.getitem. unfold_monad. rewrite Ht. simpl. eauto. }
  simpl.
  apply set_if_inr. intros [c Hc]%Hcontacts.
  unfold contacts_value, contacts_slice, Py.getitem. unfold_monad.
  rewrite Hc. simpl. eauto.
Qed.

(** ** Truncation to the true length *)

(** C1 (amended): for a truncation length that is not negative, and a model
    output in which the BOS row of sequence [i] is followed by one row per
    token of the sequence (and the contact tensor covers the sequence),
    the result is built, its per-token tensors are exactly the first
    min(truncation, length) token rows, and its contact map is the leading
    square of that size: no BOS, EOS or padding row or column is saved. *)
Theorem saved_slices_true_length args reps contacts i label strs s :
  strs !! i = Some s ->
  0 <= truncation_seq_length args ->
  (forall layer t, (layer, t) ∈ reps -> exists toks, token_rows i (String.length s) t toks) ->
  (return_contacts args = true ->
   exists c, contacts !! i = Some c /\ covers (String.length s) c) ->
  let tl := Z.to_nat (Z.min (truncation_seq_length args) (Z.of_nat (String.length s))) in
  exists result,
    seq_result mean0 args reps contacts i label strs = inr result /\
    sliced_to_truncate_len args s result /\
    (forall d layer w,
       result !! "representations" = Some (VLayers d) -> (layer, w) ∈ d ->
       exists t toks, (layer, t) ∈ reps /\ token_rows i (String.length s) t toks /\
                      w = T2 (take tl toks)) /\
    (forall x,
       result !! "contacts" = Some x ->
       exists c, contacts !! i = Some c /\ x = VTensor (T2 (take tl (take tl <$> c)))).
Proof.
  intros Hs Htr Hreps Hcontacts tl.
  pose proof (truncate_len_bounds args s Htr) as Hb.
  assert (Htl : tl = Z.to_nat (truncate_len args s)) by reflexivity.
  destruct (seq_result_succeeds args reps contacts i label strs s Hs) as [result Hres].
  { intros layer t (toks & bos & rest & Ht & _)%Hreps. eauto. }
  { intros (c & Hc & _)%Hcontacts. eauto. }
  exists result. split; [exact Hres |].
  apply seq_result_inr in Hres as (s' & r1 & r2 & r3 & Hs' & H1 & H2 & H3 & H4).
  assert (s' = s) as -> by congruence.
  assert (Hper : forall d layer w,
             result !! "representations" = Some (VLayers d) -> (layer, w) ∈ d ->
             exists t toks, (layer, t) ∈ reps /\ token_rows i (String.length s) t toks /\
                            w = T2 (take tl toks)).
  { intros d layer w Hd Hw.
    rewrite (stage_lookup_ne _ _ _ _ _ "representations" H4) in Hd by discriminate.
    rewrite (stage_lookup_ne _ _ _ _ _ "representations" H3) in Hd by discriminate.
    rewrite (stage_lookup_ne _ _ _ _ _ "representations" H2) in Hd by discriminate.
    eapply stage_lookup_fresh in Hd; [| exact H1 | done].
    destruct Hd as (d' & [= <-] & Hd').
    destruct (Hd' layer w Hw) as (t & Ht & Hentry).
    destruct (Hreps layer t Ht) as [toks Htoks].
    exists t, toks. repeat split; try done.
    unfold per_tok_entry in Hentry. unfold_monad.
    rewrite (per_tok_slice_token_rows args s i t toks Htr Htoks) in Hentry.
    simpl in Hentry. by injection Hentry as <-. }
  assert (Hcon : forall x,
             result !! "contacts" = Some x ->
             exists c, contacts !! i = Some c /\ covers (String.length s) c /\
                       x = VTensor (T2 (take tl (take tl <$> c)))).
  { intros x Hx.
    assert (Hfresh : r3 !! "contacts" = None).
    { rewrite (stage_lookup_ne _ _ _ _ _ "contacts" H3) by discriminate.
      rewrite (stage_lookup_ne _ _ _ _ _ "contacts" H2) by discriminate.
      rewrite (stage_lookup_ne _ _ _ _ _ "contacts" H1) by discriminate.
      done. }
    assert (Hflag : return_contacts args = true).
    { destruct (return_contacts args); [done |]. simpl in H4. subst result. congruence. }
    eapply stage_lookup_fresh in Hx; [| exact H4 | exact Hfresh]. simpl in Hx.
    destruct (Hcontacts Hflag) as (c & Hc & Hcov).
    exists c. repeat split; try done; try apply Hcov.
    unfold contacts_value in Hx. unfold_monad.
    rewrite (contacts_slice_covers args s i contacts c Htr Hc Hcov) in Hx.
    simpl in Hx. by injection Hx as <-. }
  split; [| split; [exact Hper |]].
  - split.
    + intros d layer m Hd Hm.
      destruct (Hper d layer (T2 m) Hd Hm) as (t & toks & _ & (bos & rest & _ & Hlen) & [= ->]).
      rewrite length_take. fold (truncate_len args s). lia.
    + intros m Hm. destruct (Hcon _ Hm) as (c & _ & [Hrows Hcols] & [= ->]).
      fold (truncate_len args s). split.
      * rewrite length_take, length_fmap. lia.
      * apply Forall_take, Forall_fmap.
        eapply Forall_impl; [exact Hcols |]. simpl. intros row Hrow.
        rewrite length_take. lia.
  - intros x Hx. destruct (Hcon x Hx) as (c & Hc & _ & ->). eauto.
Qed.

End Runner.

(** ** The concatenator *)

Section Concatenator.

Context {elt : Type}.
Implicit Types (t : @tree elt) (d : gmap string (@value elt)).

Lemma for_collect_load_row (files : list (string * gmap string (@value elt)))
    (tr : list (@event elt)) :
  for_collect files (fun file => lift (load_row file)) tr = (load_rows files, tr).
Proof.
  induction files as [| file files IH]; simpl; [reflexivity |].
  unfold bind, lift, ret in *. destruct (load_row file) as [e | df]; simpl; [reflexivity |].
  rewrite IH. destruct (load_rows files); reflexivity.
Qed.

Lemma concatenate_files_unfold t (output_dir output_csv : string) (tr : list event) :
  concatenate_files t output_dir output_csv tr =
  match load_rows (pt_files (os_walk output_dir t)) with
  | inl e => (inl e, tr)
  | inr [] => (inr tt, tr ++ [EPrint MsgNoData])
  | inr (df :: dfs) =>
      (inr tt,
       tr ++ [EPrint (MsgShape (length (pd_concat (df :: dfs)))
                               (df_width (pd_concat (df :: dfs))));
              EToCsv output_csv (pd_concat (df :: dfs));
              EPrint (MsgSavedCsv output_csv)])
  end.
Proof.
  unfold concatenate_files. unfold_monad. unfold bind at 1.
  rewrite for_collect_load_row.
  destruct (load_rows _) as [e | [| df dfs]]; try reflexivity.
  unfold bind, emit. simpl. by rewrite <- !app_assoc.
Qed.

Lemma load_row_ready (path : string) d label key x :
  row_ready d label key x ->
  load_row (path, d) = inr [(label, Some <$> tolist x)].
Proof.
  intros (Hlabel & layers & Hmean & Hlast).
  unfold load_row, dict_getitem, value_popitem, Py.popitem. unfold_monad.
  rewrite Hlabel. simpl. rewrite Hmean. simpl. rewrite Hlast. reflexivity.
Qed.

Lemma load_row_inr (path : string) d df :
  load_row (path, d) = inr df ->
  exists label key x, row_ready d label key x /\ df = [(label, Some <$> tolist x)].
Proof.
  unfold load_row, dict_getitem, value_popitem, Py.popitem, row_ready. unfold_monad.
  destruct (d !! "label") as [label |]; simpl; [| discriminate].
  destruct (d !! "mean_representations") as [[| layers |] |]; simpl; try discriminate.
  destruct (last layers) as [[key x] |] eqn:Hlast; simpl; [| discriminate].
  intros [= <-]. exists label, key, x. eauto.
Qed.



Lemma load_rows_inr (files : list (string * gmap string (@value elt))) dfs :
  load_rows files = inr dfs -> Forall2 (fun file df => load_row file = inr df) files dfs.
Proof.
  revert dfs. induction files as [| file files IH]; intros dfs; simpl.
  - intros [= <-]. constructor.
  - destruct (load_row file) as [e | df] eqn:Hrow; simpl; [discriminate |].
    destruct (load_rows files) as [e | dfs'] eqn:Hrows; simpl; [discriminate |].
    intros [= <-]. constructor; auto.
Qed.



Lemma load_rows_ready (files : list (string * gmap string (@value elt))) :
  Forall (fun file => exists label key x, row_ready file.2 label key x) files ->
  exists dfs, load_rows files = inr dfs /\ length dfs = length files.
Proof.
  induction 1 as [| [path d] files (label & key & x & Hready) _ (dfs & IH & Hlen)];
    cbn [load_rows].
  - eauto.
  - rewrite (load_row_ready path d label key x Hready). simpl. rewrite IH. simpl.
    eexists. split; [reflexivity |]. simpl. by rewrite Hlen.
Qed.

Lemma pd_concat_index (dfs : list (list (@value elt * list (option (@cell elt))))) :
  (pd_concat dfs).*1 = (concat dfs).*1.
Proof.
  unfold pd_concat. rewrite <- list_fmap_compose. reflexivity.
Qed.

Lemma rows_keyed_by_label (files : list (string * gmap string (@value elt))) dfs :
  Forall2 (fun file df => load_row file = inr df) files dfs ->
  Forall2 (fun file label => file.2 !! "label" = Some label) files (concat dfs).*1.
Proof.
  induction 1 as [| [path d] df files dfs Hrow _ IH]; simpl.
  - constructor.
  - apply load_row_inr in Hrow as (label & key & x & [Hlabel _] & ->).
    simpl. constructor; done.
Qed.

(** ** Which files are selected *)

Lemma startswith_spec (p s : string) :
  Py.startswith p s = true <-> exists b, s = p +:+ b.
Proof.
  revert s. induction p as [| a p IH]; intros s; simpl.
  - split; [eauto | done].
  - destruct s as [| c s]; simpl.
    + split; [done | intros [b [=]]].
    + rewrite andb_true_iff, Ascii.eqb_eq, IH. split.
      * intros [-> [b ->]]. eauto.
      * intros [b [= -> ->]]. eauto.
Qed.

Lemma str_in_spec (p s : string) : Py.str_in p s = true <-> occurs_in p s.
Proof.
  unfold occurs_in. split.
  - induction s as [| c s IH].
    + simpl. rewrite orb_false_r. intros [b ->]%startswith_spec. by exists "", b.
    + cbn [Py.str_in]. intros [[b ->]%startswith_spec | (a & b & ->)%IH]%orb_true_iff.
      * by exists "", b.
      * by exists (String c a), b.
  - intros (a & b & ->). induction a as [| c a IH].
    + simpl. destruct (p +:+ b) eqn:E; cbn [Py.str_in]; apply orb_true_iff; left;
        apply startswith_spec; eauto.
    + cbn [String.append Py.str_in] in *. apply orb_true_iff. by right.
Qed.

Lemma elem_of_pt_files
    (walk : list (string * list string * list (string * gmap string (@value elt))))
    (path : string) d :
  (path, d) ∈ pt_files walk <->
  exists r dirs files file,
    (r, dirs, files) ∈ walk /\ (file, d) ∈ files /\
    occurs_in ".pt" file /\ path = Py.os_path_join r file.
Proof.
  unfold pt_files. rewrite list_elem_of_In, in_flat_map. split.
  - intros ([[r dirs] files] & Hwalk & Hin).
    apply in_map_iff in Hin as ([file d'] & [= <- <-] & Hfile).
    apply filter_In in Hfile as [Hfile Hpt].
    exists r, dirs, files, file.
    rewrite !list_elem_of_In. by rewrite <- str_in_spec.
  - intros (r & dirs & files & file & Hwalk & Hfile & Hpt & ->).
    exists (r, dirs, files). split; [by apply list_elem_of_In |].
    apply in_map_iff. exists (file, d). split; [reflexivity |].
    apply filter_In. split; [by apply list_elem_of_In | by apply str_in_spec].
Qed.

(** A file of a walked directory is selected exactly when '.pt' occurs
    somewhere in its name, so names such as 'x.pth' and 'a.pt.bak', which
    do not end with '.pt', are selected, and a name without the substring
    is not. *)
Theorem pt_files_by_substring :
  (forall (top : string) t (path : string) d,
     (path, d) ∈ pt_files (os_walk top t) <->
     exists r dirs files file,
       (r, dirs, files) ∈ os_walk top t /\ (file, d) ∈ files /\
       occurs_in ".pt" file /\ path = Py.os_path_join r file) /\
  Py.str_in ".pt" "x.pth" = true /\
  Py.str_in ".pt" "a.pt.bak" = true /\
  Py.str_in ".pt" "notes.txt" = false.
Proof.
  split; [| by vm_compute]. intros top t path d. apply elem_of_pt_files.
Qed.

(** ** Outcome of the concatenation *)

(** C6 (amended): with no selected file the concatenator only prints that
    there is nothing to concatenate: it raises nothing and writes no CSV.
    With at least one selected file, all of them holding a label and
    non-empty mean representations, it writes one CSV whose rows are keyed,
    in order, by the labels stored in the files. *)
Theorem concatenate_files_outcome t (output_dir output_csv : string) (tr : list event) :
  let files := pt_files (os_walk output_dir t) in
  (files = [] ->
   concatenate_files t output_dir output_csv tr = (inr tt, tr ++ [EPrint MsgNoData])) /\
  (files <> [] ->
   Forall (fun file => exists label key x, row_ready file.2 label key x) files ->
   exists df,
     concatenate_files t output_dir output_csv tr =
       (inr tt,
        tr ++ [EPrint (MsgShape (length df) (df_width df));
               EToCsv output_csv df;
               EPrint (MsgSavedCsv output_csv)]) /\
     Forall2 (fun file label => file.2 !! "label" = Some label) files df.*1).
Proof.
  intros files. rewrite concatenate_files_unfold. fold files. split.
  - intros ->. reflexivity.
  - intros Hne Hready. destruct (load_rows_ready files Hready) as (dfs & Hrows & Hlen).
    rewrite Hrows. destruct dfs as [| df dfs].
    + destruct files; [done | discriminate].
    + eexists. split; [reflexivity |].
      rewrite pd_concat_index. by apply rows_keyed_by_label, load_rows_inr.
Qed.


End Concatenator.


(** * The properties on the sample setting *)

(** Closes a membership goal in an explicit list. *)
Ltac pick_element :=
  apply list_elem_of_In; vm_compute;
  solve [repeat (first [left; reflexivity | right])].

Lemma get_device_priority_witness :
  get_device false false = cpu /\ get_device false true = cuda.
Proof.
  split.
  - exact (proj1 (proj2 (proj2 get_device_priority))).
  - exact (proj1 (proj2 get_device_priority)).
Defined.

Lemma run_msa_fails_fast_witness :
  run Sample.mean0 Sample.env (Sample.args "msa" [-1] ["mean"] 1022) [] =
    (inl (Py.ValueError msa_message), [ELoadModel "msa"; EModelEval]).
Proof.
  apply (run_msa_fails_fast Sample.mean0 Sample.env
           (Sample.args "msa" [-1] ["mean"] 1022) []).
  reflexivity.
Defined.

(** The layer list [7] is out of range for the two-layer sample model and
    [-1; 0; 2] is in range. *)
Lemma run_layer_assertion_witness :
  (exists new,
     run Sample.mean0 Sample.env (Sample.args "esm" [7] ["mean"] 1022) [] =
       (inl Py.AssertionError, new) /\
     Forall (fun ev => is_inference_event ev = false) new) /\
  (run Sample.mean0 Sample.env (Sample.args "esm" [-1; 0; 2] ["mean"] 1022) []).1
    <> inl Py.AssertionError.
Proof.
  split.
  - apply (run_layer_assertion Sample.mean0 Sample.env
             (Sample.args "esm" [7] ["mean"] 1022) []).
    + reflexivity.
    + apply Exists_cons_hd. right. simpl. lia.
  - apply (run_layer_assertion Sample.mean0 Sample.env
             (Sample.args "esm" [-1; 0; 2] ["mean"] 1022) []).
    + reflexivity.
    + repeat constructor; simpl; lia.
Defined.

(** C4 as stated fails: with an MSA Transformer and the out-of-range layer
    list [7], the run ends with the [ValueError] of the architecture check,
    not with a failed assertion. *)
Lemma msa_error_precedes_assertion :
  is_MSATransformer (model_of Sample.env (Sample.args "msa" [7] ["mean"] 1022)) = true /\
  Exists (fun i => i < - (2 + 1) \/ 2 < i)
         (repr_layers (Sample.args "msa" [7] ["mean"] 1022)) /\
  run Sample.mean0 Sample.env (Sample.args "msa" [7] ["mean"] 1022) [] =
    (inl (Py.ValueError msa_message), [ELoadModel "msa"; EModelEval]) /\
  (run Sample.mean0 Sample.env (Sample.args "msa" [7] ["mean"] 1022) []).1
    <> inl Py.AssertionError.
Proof.
  split; [reflexivity |]. split; [apply Exists_cons_hd; right; lia |].
  split; [reflexivity | discriminate].
Qed.

Lemma saved_result_keys_witness :
  exists result : gmap string value,
    ESave "out" "a.pt" result
      ∈ (run Sample.mean0 Sample.env (Sample.args "esm" [-1] ["mean"; "bos"] 1022) []).2 /\
    dom result = {["label"]} ∪ include_keys ["mean"; "bos"].
Proof.
  eexists. split.
  - pick_element.
  - apply (saved_result_keys Sample.mean0 Sample.env
             (Sample.args "esm" [-1] ["mean"; "bos"] 1022) "out" "a.pt").
    pick_element.
Defined.

(** C2 as stated fails: with [--include mean] the saved result for [a] has
    the keys 'label' and 'mean_representations', one more than the
    [--include] values determine. *)
Lemma saved_keys_contain_label :
  exists result : gmap string value,
    ESave "out" "a.pt" result
      ∈ (run Sample.mean0 Sample.env (Sample.args "esm" [-1] ["mean"] 1022) []).2 /\
    dom result = {["label"; "mean_representations"]} /\
    dom result <> include_keys (include (Sample.args "esm" [-1] ["mean"] 1022)).
Proof.
  exists (<["mean_representations" := VLayers [(2, T1 [17; 2])]]>
            {["label" := VStr "a"]}).
  split; [pick_element |].
  rewrite dom_insert_L, dom_singleton_L. split; [set_solver |].
  intros Heq.
  apply (f_equal (fun keys => bool_decide ("label" ∈ keys))) in Heq.
  vm_compute in Heq. discriminate.
Qed.

Lemma saved_result_label_witness :
  exists (result : gmap string value) label,
    ESave "out" "b.pt" result
      ∈ (run Sample.mean0 Sample.env (Sample.args "esm" [-1] ["contacts"] 1022) []).2 /\
    "b.pt" = label +:+ ".pt" /\
    result !! "label" = Some (VStr label).
Proof.
  assert (exists result : gmap string value,
            ESave "out" "b.pt" result
              ∈ (run Sample.mean0 Sample.env
                   (Sample.args "esm" [-1] ["contacts"] 1022) []).2)
    as [result Hin].
  { eexists. pick_element. }
  destruct (saved_result_label Sample.mean0 Sample.env
              (Sample.args "esm" [-1] ["contacts"] 1022) "out" "b.pt" result Hin)
    as (b & label & _ & _ & _ & Hname & Hlabel).
  exists result, label. auto.
Defined.

(** Sequence [a] of the sample batch, two residues long, with the default
    truncation length. *)
Lemma saved_slices_true_length_witness :
  exists result,
    seq_result Sample.mean0 (Sample.args "esm" [-1] ["per_tok"; "contacts"] 1022)
      (out_representations (Sample.model_forward (toks Sample.batch) [2] true))
      (default [] (out_contacts (Sample.model_forward (toks Sample.batch) [2] true)))
      0 "a" (strs Sample.batch) = inr result /\
    sliced_to_truncate_len (Sample.args "esm" [-1] ["per_tok"; "contacts"] 1022) "MK" result.
Proof.
  destruct (saved_slices_true_length Sample.mean0
              (Sample.args "esm" [-1] ["per_tok"; "contacts"] 1022)
              (out_representations (Sample.model_forward (toks Sample.batch) [2] true))
              (default [] (out_contacts (Sample.model_forward (toks Sample.batch) [2] true)))
              0 "a" (strs Sample.batch) "MK")
    as (result & Hres & Hsliced & _).
  - reflexivity.
  - simpl. lia.
  - intros layer t [= -> ->]%list_elem_of_singleton.
    exists [[20; 2]; [15; 2]], [0; 2], [[2; 2]; [1; 2]; [1; 2]]. split; reflexivity.
  - intros _. eexists. split; [reflexivity |].
    split; [simpl; lia | repeat constructor; simpl; lia].
  - exists result. split; assumption.
Defined.

(** C1 as stated fails: with [--truncation_seq_length -1] the contact map
    saved for sequence [a], two residues long in a batch padded to four,
    is 3 by 3: it is not min(-1, 2) long and it keeps a padding position;
    the per-token tensor is empty. The model output has the expected
    layout. *)
Lemma negative_truncation_keeps_padding :
  let args := Sample.args "esm" [-1] ["per_tok"; "contacts"] (-1) in
  let out := Sample.model_forward (toks Sample.batch) [2] true in
  strs Sample.batch !! 0%nat = Some "MK" /\
  (forall layer t, (layer, t) ∈ out_representations out ->
                   exists toks, token_rows 0 (String.length "MK") t toks) /\
  (exists c, out_contacts out = Some c /\
             exists c0, c !! 0%nat = Some c0 /\ covers (String.length "MK") c0) /\
  exists result,
    seq_result Sample.mean0 args (out_representations out)
      (default [] (out_contacts out)) 0 "a" (strs Sample.batch) = inr result /\
    result !! "contacts"
      = Some (VTensor (T2 [[0; 1; 2]; [10; 11; 12]; [20; 21; 22]])) /\
    result !! "representations" = Some (VLayers [(2, T2 [])]) /\
    ~ sliced_to_truncate_len args "MK" result.
Proof.
  intros args out. split; [reflexivity |]. split; [| split].
  - intros layer t [= -> ->]%list_elem_of_singleton.
    exists [[20; 2]; [15; 2]], [0; 2], [[2; 2]; [1; 2]; [1; 2]]. split; reflexivity.
  - eexists. split; [reflexivity |]. eexists. split; [reflexivity |].
    split; [simpl; lia | repeat constructor; simpl; lia].
  - eexists. split; [by vm_compute |]. split; [by vm_compute |]. split; [by vm_compute |].
    intros [_ Hcontacts].
    destruct (Hcontacts [[0; 1; 2]; [10; 11; 12]; [20; 21; 22]]) as [Hlen _];
      [by vm_compute |].
    vm_compute in Hlen. discriminate.
Qed.

(** The sample tree holds [a.pt] and, one level down, [b.pth]; the tree
    with only [notes.txt] yields nothing to concatenate. *)
Lemma concatenate_files_outcome_witness :
  concatenate_files Sample.tree_empty "out" "out.csv" [] = (inr tt, [EPrint MsgNoData]) /\
  exists df,
    concatenate_files Sample.tree_mean "out" "out.csv" [] =
      (inr tt,
       [EPrint (MsgShape (length df) (df_width df));
        EToCsv "out.csv" df;
        EPrint (MsgSavedCsv "out.csv")]) /\
    df.*1 = [VStr "a"; VStr "b"].
Proof.
  split.
  - apply (concatenate_files_outcome Sample.tree_empty "out" "out.csv" []).
    reflexivity.
  - destruct (proj2 (concatenate_files_outcome Sample.tree_mean "out" "out.csv" []))
      as (df & Hrun & Hkeys).
    + discriminate.
    + repeat constructor.
      * exists (VStr "a"), 2, (T1 [6; 7]). split; [reflexivity |].
        eexists. split; reflexivity.
      * exists (VStr "b"), 2, (T1 [8; 9]). split; [reflexivity |].
        eexists. split; reflexivity.
    + exists df. split; [exact Hrun |].
      clear Hrun.
      change (pt_files (os_walk "out" Sample.tree_mean))
        with [("out/a.pt", Sample.file_a); ("out/sub/b.pth", Sample.file_b)] in Hkeys.
      apply Forall2_cons_inv_l in Hkeys as (l1 & df1 & H1 & Hkeys & Hdf).
      apply Forall2_cons_inv_l in Hkeys as (l2 & df2 & H2 & Hkeys & ->).
      apply Forall2_nil_inv_l in Hkeys as ->.
      rewrite Hdf. vm_compute in H1, H2. by injection H1 as <-; injection H2 as <-.
Defined.

(** C6 as stated fails: a tree whose only selected file was saved without
    mean representations has a file to concatenate, yet the concatenator
    raises [KeyError] and writes no CSV. *)
Lemma concatenate_without_mean_writes_nothing :
  pt_files (os_walk "out" Sample.tree_bos) <> [] /\
  concatenate_files Sample.tree_bos "out" "out.csv" [] =
    (inl (Py.KeyError "mean_representations"), []).
Proof. split; [discriminate | reflexivity]. Qed.


Lemma pt_files_by_substring_witness :
  ("out/sub/b.pth", Sample.file_b) ∈ pt_files (os_walk "out" Sample.tree_mean).
Proof.
  apply (proj1 pt_files_by_substring "out" Sample.tree_mean).
  exists "out/sub", [], [("b.pth", Sample.file_b)], "b.pth".
  split; [pick_element |]. split; [pick_element |].
  split; [by exists "b", "h" | reflexivity].
Defined.

(** * Further properties of the runner *)

Section RunnerEffects.

Context {elt : Type} (mean0 : list (list elt) -> list elt).
Implicit Types (env : @Env elt) (args : Args).

Lemma use_accelerator_true args (dev : device) :
  use_accelerator args dev = true <-> nogpu args = false /\ dev <> cpu.
Proof.
  unfold use_accelerator. rewrite andb_true_iff, !negb_true_iff.
  destruct dev; simpl; intuition congruence.
Qed.

Lemma printed_device args (dev : device) :
  (if use_accelerator args dev then dev else cpu) = (if nogpu args then cpu else dev).
Proof. unfold use_accelerator. by destruct (nogpu args), dev. Qed.

(** One [emit] whose event satisfies the invariant by computation. *)
Ltac effect_step :=
  eapply sat_bind; [apply sat_emit_any; simpl; auto | intros _ _].

Lemma run_effect_sat env args :
  sat (run_effect_ok env args)
      (fun e => forall k, e = Py.KeyError k -> return_contacts args = true)
      (fun _ => True)
      (run mean0 env args).
Proof.
  unfold run. unfold_monad. fold (model_of env args).
  effect_step. effect_step.
  destruct (is_MSATransformer (model_of env args)).
  { apply sat_raise. discriminate. }
  eapply sat_bind with (R1 := fun _ => True).
  { destruct (use_accelerator _ _) eqn:Hacc.
    - apply use_accelerator_true in Hacc as [Hno Hdev].
      eapply sat_bind; [apply sat_emit_any; simpl; auto | intros _ _].
      apply sat_emit_any; simpl; auto.
    - by apply sat_ret. }
  intros _ _.
  effect_step. effect_step. effect_step. effect_step.
  fold (batches_of env args).
  destruct (negb _).
  { apply sat_raise. discriminate. }
  eapply sat_bind; [| intros _ _; by apply sat_emit_any].
  apply sat_for_each. intros [batch_idx b] Hb%elem_of_enumerate.
  apply list_elem_of_lookup_2 in Hb.
  unfold process_batch. unfold_monad.
  effect_step.
  eapply sat_bind; [apply sat_emit_any; simpl; apply printed_device | intros _ _].
  effect_step.
  eapply sat_bind with (R1 := fun _ => True).
  { apply sat_lift. destruct (dict_comp inr _ _) as [e | reps] eqn:Hd; [| done].
    pose proof (esat_dict_comp (fun _ => False) inr
                  (out_representations
                     (forward (model_of env args) (toks b)
                        (map (normalize_layer (Z.of_nat (num_layers (model_of env args))))
                             (repr_layers args))
                        (return_contacts args))) []) as Hs.
    rewrite Hd in Hs. simpl in Hs. exfalso. apply Hs. intros; discriminate. }
  intros reps _.
  eapply sat_bind with (R1 := fun _ => True).
  { destruct (return_contacts args).
    - destruct (out_contacts _); [by apply sat_ret | by apply sat_raise].
    - by apply sat_ret. }
  intros contacts _.
  apply sat_for_each. intros [i label] Hi%elem_of_enumerate.
  apply list_elem_of_lookup_2 in Hi.
  unfold process_sequence. unfold_monad.
  eapply sat_bind; [apply sat_emit_any; simpl; eauto 10 | intros _ _].
  eapply sat_bind with (R1 := fun _ => True).
  { apply sat_lift.
    pose proof (seq_result_esat mean0 args reps contacts i label (strs b)) as Hs.
    destruct (seq_result _ _ _ _ _ _ _) as [e |]; simpl in *; [| done].
    subst e. discriminate. }
  intros result _.
  apply sat_emit_any; simpl; eauto 10.
Qed.

Lemma run_effects env args (ev : event) :
  ev ∈ (run mean0 env args []).2 -> run_effect_ok env args ev.
Proof.
  intros Hin. destruct (run_effect_sat env args []) as (new & Htr & Hnew & _).
  rewrite Htr in Hin. simpl in Hin.
  rewrite Forall_forall in Hnew. by apply Hnew.
Qed.

(** X1: the model is moved to a device only when [--nogpu] is not set, and
    then to the device the selector chose, which is not the CPU; the device
    printed for a batch is the CPU under [--nogpu] and the selected device
    otherwise. *)
Theorem run_device_use env args (d : device) :
  let dev := get_device (mps_is_available env) (cuda_is_available env) in
  (EModelTo d ∈ (run mean0 env args []).2 ->
   nogpu args = false /\ d = dev /\ d <> cpu) /\
  (EPrint (MsgDevice d) ∈ (run mean0 env args []).2 ->
   d = if nogpu args then cpu else dev).
Proof. intros dev. split; intros Hin%run_effects; exact Hin. Qed.

Lemma run_never_writes_csv env args path df :
  EToCsv path df ∉ (run mean0 env args []).2.
Proof. intros Hin%run_effects. exact Hin. Qed.


End RunnerEffects.

(** ** What a run that returns has done *)

Section Yields.

Context {E X : Type} (view : E -> list X).

Lemma yields_ret {A} (a : A) : yields view (ret a) [].
Proof.
  intros tr a' tr' [= _ <-]. exists []. by rewrite app_nil_r.
Qed.

Lemma yields_emit (ev : E) : yields view (emit ev) (view ev).
Proof.
  intros tr a tr' [= _ <-]. exists [ev]. simpl. by rewrite app_nil_r.
Qed.

Lemma yields_raise {A} (e : Py.exn) (xs : list X) : yields view (@raise E A e) xs.
Proof. intros tr a tr' [=]. Qed.

Lemma yields_lift {A} (r : Py.exn + A) : yields view (lift r) [].
Proof.
  intros tr a tr' [= _ <-]. exists []. by rewrite app_nil_r.
Qed.

Lemma yields_bind {A B} (m : M E A) (k : A -> M E B) (xs ys : list X) :
  yields view m xs -> (forall a, yields view (k a) ys) -> yields view (bind m k) (xs ++ ys).
Proof.
  intros Hm Hk tr b tr' Hrun. unfold bind in Hrun.
  destruct (m tr) as [[e | a] tr1] eqn:Hmtr; [discriminate |].
  destruct (Hm tr a tr1 Hmtr) as (new1 & -> & Hxs).
  destruct (Hk a _ b tr' Hrun) as (new2 & -> & Hys).
  exists (new1 ++ new2). rewrite app_assoc, flat_map_app, Hxs, Hys. done.
Qed.

Lemma yields_for_each {A} (l : list A) (body : A -> M E unit) (g : A -> list X) :
  (forall x, x ∈ l -> yields view (body x) (g x)) ->
  yields view (for_each l body) (flat_map g l).
Proof.
  induction l as [| x l IH]; intros Hbody; simpl.
  - apply yields_ret.
  - apply yields_bind.
    + apply Hbody. left.
    + intros _. apply IH. intros y Hy. apply Hbody. by right.
Qed.

Lemma yields_eq {A} (m : M E A) (xs ys : list X) :
  yields view m xs -> xs = ys -> yields view m ys.
Proof. by intros H <-. Qed.

End Yields.

Lemma flat_map_enumerate_from {A B} (f : A -> B) (k : nat) (l : list A) :
  flat_map (fun il => [f il.2]) (Py.enumerate_from k l) = f <$> l.
Proof.
  revert k. induction l as [| x l IH]; intros k; simpl; [done |]. by rewrite IH.
Qed.

Lemma flat_map_nothing {A B} (l : list A) : flat_map (fun _ => @nil B) l = [].
Proof. induction l; simpl; auto. Qed.

(** A step whose view is known, then the rest. *)
Ltac yields_emit_step :=
  eapply yields_bind; [apply yields_emit | intros ?].

Ltac yields_lift_step :=
  eapply yields_bind; [apply yields_lift | intros ?].

Section RunnerOutput.

Context {elt : Type} (mean0 : list (list elt) -> list elt).
Implicit Types (env : @Env elt) (args : Args).

Lemma process_batch_saves args model dev layers n kb :
  yields saved_file (process_batch mean0 args model dev layers n kb)
         ((fun label => (output_dir args, label +:+ ".pt")) <$> labels kb.2).
Proof.
  destruct kb as [batch_idx b]. unfold process_batch. unfold_monad.
  eapply yields_eq.
  { yields_emit_step. yields_emit_step. yields_emit_step.
    yields_lift_step.
    eapply yields_bind with (xs := []).
    { destruct (return_contacts args); [| apply yields_ret].
      destruct (out_contacts _); [apply yields_ret | apply yields_raise]. }
    intros contacts.
    apply yields_for_each with
      (g := fun il => [(output_dir args, il.2 +:+ ".pt")]).
    intros [i label] _. unfold process_sequence. unfold_monad.
    eapply yields_eq.
    { yields_emit_step.
      eapply yields_bind with (ys := [(output_dir args, label +:+ ".pt")]);
        [apply yields_lift | intros result].
      apply (yields_emit saved_file (ESave _ _ result)). }
    reflexivity. }
  simpl.
  apply (flat_map_enumerate_from (fun label => (output_dir args, label +:+ ".pt"))).
Qed.

Lemma process_batch_forwards args model dev layers n kb :
  yields forwarded (process_batch mean0 args model dev layers n kb) [toks kb.2].
Proof.
  destruct kb as [batch_idx b]. unfold process_batch. unfold_monad.
  eapply yields_eq.
  { yields_emit_step. yields_emit_step. yields_emit_step.
    yields_lift_step.
    eapply yields_bind with (xs := []).
    { destruct (return_contacts args); [| apply yields_ret].
      destruct (out_contacts _); [apply yields_ret | apply yields_raise]. }
    intros contacts.
    apply yields_for_each with (g := fun _ => []).
    intros [i label] _. unfold process_sequence. unfold_monad.
    eapply yields_eq.
    { yields_emit_step.
      eapply yields_bind with (ys := []); [apply yields_lift | intros result].
      apply (yields_emit forwarded (ESave _ _ result)). }
    reflexivity. }
  simpl. by rewrite flat_map_nothing.
Qed.

Lemma run_yields {X} (view : event -> list X) (per_batch : Batch -> list X) env args :
  (forall ev, is_inference_event ev = false -> view ev = []) ->
  (forall model dev layers n kb,
     yields view (process_batch mean0 args model dev layers n kb) (per_batch kb.2)) ->
  yields view (run mean0 env args) (flat_map per_batch (batches_of env args)).
Proof.
  intros Hview Hbatch. unfold run. unfold_monad. fold (model_of env args).
  fold (batches_of env args).
  destruct (is_MSATransformer (model_of env args)).
  { eapply yields_eq.
    - yields_emit_step. yields_emit_step. apply yields_raise.
    - rewrite !Hview by done. reflexivity. }
  destruct (negb _).
  { eapply yields_eq.
    - yields_emit_step. yields_emit_step.
      eapply yields_bind with (xs := []).
      { destruct (use_accelerator _ _); [| apply yields_ret].
        eapply yields_eq; [yields_emit_step; apply yields_emit |].
        by rewrite !Hview. }
      intros _. yields_emit_step. yields_emit_step.
      yields_emit_step. yields_emit_step. apply yields_raise.
    - rewrite !Hview by done. reflexivity. }
  eapply yields_eq.
  - yields_emit_step. yields_emit_step.
    eapply yields_bind with (xs := []).
    { destruct (use_accelerator _ _); [| apply yields_ret].
      eapply yields_eq; [yields_emit_step; apply yields_emit |].
      by rewrite !Hview. }
    intros _. yields_emit_step. yields_emit_step.
    yields_emit_step. yields_emit_step.
    eapply yields_bind; [| intros _; apply yields_emit].
    apply yields_for_each with (g := fun kb => per_batch kb.2).
    intros kb _. apply Hbatch.
  - rewrite !Hview by done. simpl. rewrite app_nil_r.
    unfold Py.enumerate. generalize 0%nat.
    induction (batches_of env args) as [| b l IH]; intros k; simpl; [done |].
    by rewrite IH.
Qed.

(** X4: a run that returns has saved, in order, exactly one result per
    label of every batch, each to [args.output_dir / "<label>.pt"] (the
    two operands of the join are what is compared), and has sent the tokens
    of every batch through the model exactly once, in order. *)
Theorem run_saves_one_file_per_label env args (tr : list event) :
  run mean0 env args [] = (inr tt, tr) ->
  flat_map saved_file tr =
    flat_map (fun b => (fun label => (output_dir args, label +:+ ".pt")) <$> labels b)
             (batches_of env args) /\
  flat_map forwarded tr = toks <$> batches_of env args.
Proof.
  intros Hrun. split.
  - assert (Hy : yields saved_file (run mean0 env args)
                   (flat_map (fun b => (fun label => (output_dir args, label +:+ ".pt"))
                                         <$> labels b)
                             (batches_of env args))).
    { apply run_yields; [by intros [] | intros; apply process_batch_saves]. }
    destruct (Hy [] tt tr Hrun) as (new & -> & Hnew). exact Hnew.
  - assert (Hy : yields forwarded (run mean0 env args)
                   (flat_map (fun b => [toks b]) (batches_of env args))).
    { apply run_yields; [by intros [] | intros; apply process_batch_forwards]. }
    destruct (Hy [] tt tr Hrun) as (new & -> & Hnew). simpl. rewrite Hnew.
    clear. induction (batches_of env args) as [| b l IH]; simpl; [done |].
    by rewrite IH.
Qed.

End RunnerOutput.

(** ** When a run returns *)

Section RunnerSuccess.

Context {elt : Type} (mean0 : list (list elt) -> list elt).
Implicit Types (env : @Env elt) (args : Args).

(** X6: on a supported model, with every requested layer in range, a run
    on a FASTA file without sequences still creates the output directory
    and prints the final message; it performs no forward pass and saves no
    file. *)
Theorem run_no_batches env args (tr : list event) :
  is_MSATransformer (model_of env args) = false ->
  layers_ok env args = true ->
  batches_of env args = [] ->
  let dev := get_device (mps_is_available env) (cuda_is_available env) in
  run mean0 env args tr =
    (inr tt,
     tr ++ [ELoadModel (model_location args); EModelEval] ++
       (if use_accelerator args dev then [EModelTo dev; EPrint (MsgTransferred dev)]
        else []) ++
       [EReadFasta (fasta_file args); EBatchIndices (toks_per_batch args);
        EPrint (MsgRead (fasta_file args) (length (from_file env (fasta_file args))));
        EMkdir (output_dir args); EPrint (MsgSaved (output_dir args))]).
Proof.
  intros Hmsa Hok Hnil dev.
  unfold run. unfold_monad. fold (model_of env args). fold (layers_ok env args).
  fold (batches_of env args). unfold bind, emit, ret. simpl.
  rewrite Hmsa, Hok, Hnil. fold dev.
  destruct (use_accelerator args dev); simpl; by rewrite <- !app_assoc.
Qed.

Section Requires.

Context {E : Type}.





End Requires.



End RunnerSuccess.

(** ** What a saved result holds *)

Section SavedResult.

Context {elt : Type} (mean0 : list (list elt) -> list elt).
Implicit Types (env : @Env elt) (args : Args).

Lemma dict_set_fresh {K V} `{EqDecision K} (k : K) (v : V) (d : list (K * V)) :
  k ∉ d.*1 -> Py.dict_set k v d = d ++ [(k, v)].
Proof.
  induction d as [| [k' v'] d IH]; simpl; [done |].
  intros Hk. apply not_elem_of_cons in Hk as [Hne Hk].
  destruct (decide (k = k')); [done |]. by rewrite IH.
Qed.

Lemma dict_comp_fresh {K V W} `{EqDecision K} (f : V -> Py.exn + W)
    (items : list (K * V)) (acc d : list (K * W)) :
  NoDup items.*1 -> (forall k, k ∈ items.*1 -> k ∉ acc.*1) ->
  dict_comp f items acc = inr d ->
  exists d', d = acc ++ d' /\
    Forall2 (fun kv kw => kw.1 = kv.1 /\ f kv.2 = inr kw.2) items d'.
Proof.
  revert acc. induction items as [| [k v] items IH]; intros acc Hnd Hacc; simpl.
  - intros [= <-]. exists []. by rewrite app_nil_r.
  - apply NoDup_cons in Hnd as [Hk Hnd].
    destruct (f v) as [e | w] eqn:Hfv; simpl; [discriminate |].
    rewrite dict_set_fresh by (apply Hacc; left).
    intros Hd. apply IH in Hd as (d' & -> & Hd'); [| done |].
    + exists ((k, w) :: d'). rewrite <- app_assoc. split; [done |].
      constructor; [done | exact Hd'].
    + intros k' Hk'. rewrite fmap_app, elem_of_app. simpl.
      intros [Hin | ->%list_elem_of_singleton].
      * revert Hin. apply Hacc. by right.
      * done.
Qed.

(** A by-layer dictionary built from [reps], whose keys are distinct, has
    one entry per entry of [reps], in the same order. *)
Lemma layers_value_entries entry (reps : list (Z * list (list (list elt)))) x :
  NoDup reps.*1 -> layers_value entry reps = inr x ->
  exists d, x = VLayers d /\
    Forall2 (fun kt kw => kw.1 = kt.1 /\ entry kt.2 = inr kw.2) reps d.
Proof.
  intros Hnd. unfold layers_value. unfold_monad.
  destruct (dict_comp entry reps []) as [e | d] eqn:Hd; simpl; [discriminate |].
  intros [= <-]. exists d. split; [done |].
  apply dict_comp_fresh in Hd as (d' & -> & Hd'); [done | done |].
  intros k _ Hin. by apply not_elem_of_nil in Hin.
Qed.

Lemma seq_result_exact args reps contacts i label strs (result : gmap string value) :
  seq_result mean0 args reps contacts i label strs = inr result ->
  exists s r1 r2 r3,
    strs !! i = Some s /\
    stage (Py.str_in_list "per_tok" (include args)) "representations"
      (fun x => layers_value (per_tok_entry (truncate_len args s) i) reps = inr x)
      {["label" := VStr label]} r1 /\
    stage (Py.str_in_list "mean" (include args)) "mean_representations"
      (fun x => layers_value (mean_entry mean0 (truncate_len args s) i) reps = inr x)
      r1 r2 /\
    stage (Py.str_in_list "bos" (include args)) "bos_representations"
      (fun x => layers_value (bos_entry i) reps = inr x) r2 r3 /\
    stage (return_contacts args) "contacts"
      (fun x => contacts_value (truncate_len args s) i contacts = inr x) r3 result.
Proof.
  assert (Hv : forall v : Py.exn + @value elt,
             esat (fun _ => True) (fun x => v = inr x) v) by (by intros [|]).
  intros Hres.
  assert (Hs : esat (fun _ => True)
                 (fun result => exists s r1 r2 r3,
                    strs !! i = Some s /\
                    stage (Py.str_in_list "per_tok" (include args)) "representations"
                      (fun x => layers_value (per_tok_entry (truncate_len args s) i) reps
                                = inr x)
                      {["label" := VStr label]} r1 /\
                    stage (Py.str_in_list "mean" (include args)) "mean_representations"
                      (fun x => layers_value (mean_entry mean0 (truncate_len args s) i) reps
                                = inr x)
                      r1 r2 /\
                    stage (Py.str_in_list "bos" (include args)) "bos_representations"
                      (fun x => layers_value (bos_entry i) reps = inr x) r2 r3 /\
                    stage (return_contacts args) "contacts"
                      (fun x => contacts_value (truncate_len args s) i contacts = inr x)
                      r3 result)
                 (seq_result mean0 args reps contacts i label strs)).
  { unfold seq_result. unfold_monad.
    eapply esat_bind; [by apply esat_getitem |]. intros s Hs. simpl.
    eapply esat_bind; [apply esat_set_if; intros _; apply Hv |]. intros r1 H1. simpl.
    eapply esat_bind; [apply esat_set_if; intros _; apply Hv |]. intros r2 H2. simpl.
    eapply esat_bind; [apply esat_set_if; intros _; apply Hv |]. intros r3 H3. simpl.
    eapply esat_weaken; [| | apply esat_set_if; intros _; apply Hv]; [done |].
    intros r H4. exists s, r1, r2, r3. eauto. }
  by rewrite Hres in Hs.
Qed.

Lemma result_lookup_mean args reps contacts i label strs (result : gmap string value) :
  seq_result mean0 args reps contacts i label strs = inr result ->
  if Py.str_in_list "mean" (include args)
  then exists s x, strs !! i = Some s /\
         layers_value (mean_entry mean0 (truncate_len args s) i) reps = inr x /\
         result !! "mean_representations" = Some x
  else result !! "mean_representations" = None.
Proof.
  intros (s & r1 & r2 & r3 & Hs & H1 & H2 & H3 & H4)%seq_result_exact.
  rewrite (stage_lookup_ne _ _ _ _ _ "mean_representations" H4) by discriminate.
  rewrite (stage_lookup_ne _ _ _ _ _ "mean_representations" H3) by discriminate.
  unfold stage in H2. destruct (Py.str_in_list "mean" (include args)).
  - destruct H2 as (x & Hx & ->). exists s, x. by rewrite lookup_insert_eq.
  - subst r2. rewrite (stage_lookup_ne _ _ _ _ _ "mean_representations" H1) by discriminate.
    done.
Qed.

Lemma stage_lookup_cases flag key (Rv : @value elt -> Prop)
    (r r' : gmap string value) k v :
  stage flag key Rv r r' -> r' !! k = Some v ->
  (k = key /\ flag = true /\ Rv v) \/ r !! k = Some v.
Proof.
  unfold stage. destruct flag.
  - intros (x & Hx & ->). destruct (decide (key = k)) as [<- | Hne].
    + rewrite lookup_insert_eq. intros [= <-]. by left.
    + rewrite lookup_insert_ne by done. by right.
  - intros ->. by right.
Qed.

Lemma Forall2_keys {V W} (P : V -> W -> Prop) (items : list (Z * V)) (d : list (Z * W)) :
  Forall2 (fun kv kw => kw.1 = kv.1 /\ P kv.2 kw.2) items d -> d.*1 = items.*1.
Proof.
  induction 1 as [| [k v] [k' w] items d [Hk _] _ IH]; csimpl in *; congruence.
Qed.

Lemma layers_value_keys entry (reps : list (Z * list (list (list elt)))) d :
  NoDup reps.*1 -> layers_value entry reps = inr (VLayers d) -> d.*1 = reps.*1.
Proof.
  intros Hnd Hv. apply layers_value_entries in Hv as (d' & [= <-] & Hd'); [| done].
  exact (Forall2_keys (fun t w => entry t = inr w) reps d Hd').
Qed.

Lemma contacts_value_not_layers tl i (contacts : list (list (list elt))) d :
  contacts_value tl i contacts <> inr (VLayers d).
Proof.
  unfold contacts_value. unfold_monad. by destruct (contacts_slice tl i contacts).
Qed.

(** X8: when the layers of the model output are distinct, every by-layer
    dictionary of a result has exactly the layers of the model output, in
    the order of the model output. *)
Theorem saved_layers_follow_output args reps contacts i label strs
    (result : gmap string value) key d :
  NoDup reps.*1 ->
  seq_result mean0 args reps contacts i label strs = inr result ->
  result !! key = Some (VLayers d) ->
  d.*1 = reps.*1.
Proof.
  intros Hnd (s & r1 & r2 & r3 & Hs & H1 & H2 & H3 & H4)%seq_result_exact Hd.
  destruct (stage_lookup_cases _ _ _ _ _ _ _ H4 Hd) as [(_ & _ & Hc) | Hd3].
  { by apply contacts_value_not_layers in Hc. }
  destruct (stage_lookup_cases _ _ _ _ _ _ _ H3 Hd3) as [(_ & _ & Hv) | Hd2].
  { by apply layers_value_keys in Hv. }
  destruct (stage_lookup_cases _ _ _ _ _ _ _ H2 Hd2) as [(_ & _ & Hv) | Hd1].
  { by apply layers_value_keys in Hv. }
  destruct (stage_lookup_cases _ _ _ _ _ _ _ H1 Hd1) as [(_ & _ & Hv) | Hd0].
  { by apply layers_value_keys in Hv. }
  apply lookup_singleton_Some in Hd0 as [_ [=]].
Qed.

Lemma result_lookup_bos args reps contacts i label strs (result : gmap string value) x :
  seq_result mean0 args reps contacts i label strs = inr result ->
  result !! "bos_representations" = Some x ->
  layers_value (bos_entry i) reps = inr x.
Proof.
  intros (s & r1 & r2 & r3 & Hs & H1 & H2 & H3 & H4)%seq_result_exact Hx.
  rewrite (stage_lookup_ne _ _ _ _ _ "bos_representations" H4) in Hx by discriminate.
  eapply stage_lookup_fresh in Hx; [exact Hx | exact H3 |].
  rewrite (stage_lookup_ne _ _ _ _ _ "bos_representations" H2) by discriminate.
  rewrite (stage_lookup_ne _ _ _ _ _ "bos_representations" H1) by discriminate.
  done.
Qed.

Lemma result_lookup_per_tok args reps contacts i label strs
    (result : gmap string value) x :
  seq_result mean0 args reps contacts i label strs = inr result ->
  result !! "representations" = Some x ->
  exists s, strs !! i = Some s /\
    layers_value (per_tok_entry (truncate_len args s) i) reps = inr x.
Proof.
  intros (s & r1 & r2 & r3 & Hs & H1 & H2 & H3 & H4)%seq_result_exact Hx.
  rewrite (stage_lookup_ne _ _ _ _ _ "representations" H4) in Hx by discriminate.
  rewrite (stage_lookup_ne _ _ _ _ _ "representations" H3) in Hx by discriminate.
  rewrite (stage_lookup_ne _ _ _ _ _ "representations" H2) in Hx by discriminate.
  eapply stage_lookup_fresh in Hx; [| exact H1 | done]. eauto.
Qed.

Lemma layers_value_elem entry (reps : list (Z * list (list (list elt)))) d k w :
  layers_value entry reps = inr (VLayers d) -> (k, w) ∈ d ->
  exists t, (k, t) ∈ reps /\ entry t = inr w.
Proof.
  intros Hv Hin.
  pose proof (esat_layers_value (fun _ => True) entry reps) as Hs.
  rewrite Hv in Hs. destruct Hs as (d' & [= <-] & Hd'); [done |]. eauto.
Qed.

(** X9: the BOS representation saved for a layer is the first row of that
    layer's tensor for the sequence, whatever the truncation length. *)
Theorem saved_bos_is_first_row args reps contacts i label strs
    (result : gmap string value) d layer w :
  seq_result mean0 args reps contacts i label strs = inr result ->
  result !! "bos_representations" = Some (VLayers d) ->
  (layer, w) ∈ d ->
  exists t bos rows,
    (layer, t) ∈ reps /\ t !! i = Some (bos :: rows) /\ w = T1 bos.
Proof.
  intros Hres Hd Hin.
  pose proof (result_lookup_bos _ _ _ _ _ _ _ _ Hres Hd) as Hv.
  destruct (layers_value_elem _ _ _ _ _ Hv Hin) as (t & Ht & Hentry).
  unfold bos_entry, Py.getitem in Hentry. unfold_monad.
  destruct (t !! i) as [[| bos rows] |] eqn:Hti; simpl in Hentry; try discriminate.
  injection Hentry as <-. eauto 10.
Qed.

Lemma slice_from_one {A} (stop : Z) (l : list A) :
  exists n, Py.slice 1 stop l = take n (drop 1 l).
Proof.
  unfold Py.slice.
  assert (Hdrop : drop (Z.to_nat (Py.slice_index (Z.of_nat (length l)) 1)) l = drop 1 l).
  { unfold Py.slice_index. change (1 <? 0) with false. cbv iota.
    destruct l as [| x l].
    - by rewrite !drop_nil.
    - rewrite length_cons. f_equal. lia. }
  rewrite Hdrop. eauto.
Qed.

(** X10: whatever the truncation length, the per-token tensor and the mean
    of a layer are computed from a block of rows that starts right after
    the first row of the layer's tensor for the sequence: the BOS row is
    never part of them. *)
Theorem saved_rows_skip_bos args reps contacts i label strs
    (result : gmap string value) :
  seq_result mean0 args reps contacts i label strs = inr result ->
  (forall d layer w,
     result !! "representations" = Some (VLayers d) -> (layer, w) ∈ d ->
     exists t rows n,
       (layer, t) ∈ reps /\ t !! i = Some rows /\ w = T2 (take n (drop 1 rows))) /\
  (forall d layer w,
     result !! "mean_representations" = Some (VLayers d) -> (layer, w) ∈ d ->
     exists t rows n,
       (layer, t) ∈ reps /\ t !! i = Some rows /\
       w = T1 (mean0 (take n (drop 1 rows)))).
Proof.
  intros Hres. split.
  - intros d layer w Hd Hin.
    destruct (result_lookup_per_tok _ _ _ _ _ _ _ _ Hres Hd) as (s & _ & Hv).
    destruct (layers_value_elem _ _ _ _ _ Hv Hin) as (t & Ht & Hentry).
    unfold per_tok_entry, per_tok_slice, Py.getitem in Hentry. unfold_monad.
    destruct (t !! i) as [rows |] eqn:Hti; simpl in Hentry; [| discriminate].
    injection Hentry as <-.
    destruct (slice_from_one (truncate_len args s + 1) rows) as [n ->]. eauto 10.
  - intros d layer w Hd Hin.
    pose proof (result_lookup_mean _ _ _ _ _ _ _ Hres) as Hm.
    destruct (Py.str_in_list "mean" (include args)); [| congruence].
    destruct Hm as (s & x & _ & Hv & Hx). rewrite Hx in Hd. injection Hd as ->.
    destruct (layers_value_elem _ _ _ _ _ Hv Hin) as (t & Ht & Hentry).
    unfold mean_entry, per_tok_slice, Py.getitem in Hentry. unfold_monad.
    destruct (t !! i) as [rows |] eqn:Hti; simpl in Hentry; [| discriminate].
    injection Hentry as <-.
    destruct (slice_from_one (truncate_len args s + 1) rows) as [n ->]. eauto 10.
Qed.

(** X11: for a truncation length that is not negative and a model output
    with the usual layout, the mean saved for a layer is the mean of
    exactly the first min(truncation, length) token rows of that layer. *)
Theorem saved_mean_true_length args reps contacts i label strs s
    (result : gmap string value) d layer w :
  strs !! i = Some s ->
  0 <= truncation_seq_length args ->
  (forall layer t, (layer, t) ∈ reps -> exists toks, token_rows i (String.length s) t toks) ->
  seq_result mean0 args reps contacts i label strs = inr result ->
  result !! "mean_representations" = Some (VLayers d) ->
  (layer, w) ∈ d ->
  exists t toks,
    (layer, t) ∈ reps /\ token_rows i (String.length s) t toks /\
    w = T1 (mean0 (take (Z.to_nat (Z.min (truncation_seq_length args)
                                        (Z.of_nat (String.length s)))) toks)).
Proof.
  intros Hs Htr Hreps Hres Hd Hin.
  pose proof (result_lookup_mean _ _ _ _ _ _ _ Hres) as Hm.
  destruct (Py.str_in_list "mean" (include args)); [| congruence].
  destruct Hm as (s' & x & Hs' & Hv & Hx).
  assert (s' = s) as -> by congruence.
  rewrite Hx in Hd. injection Hd as ->.
  destruct (layers_value_elem _ _ _ _ _ Hv Hin) as (t & Ht & Hentry).
  destruct (Hreps layer t Ht) as [toks Htoks].
  exists t, toks. repeat split; try done.
  unfold mean_entry in Hentry. unfold_monad.
  rewrite (per_tok_slice_token_rows args s i t toks Htr Htoks) in Hentry.
  simpl in Hentry. by injection Hentry as <-.
Qed.

Lemma saved_without_mean_no_row args reps contacts i label strs
    (result : gmap string value) (path : string) :
  seq_result mean0 args reps contacts i label strs = inr result ->
  Py.str_in_list "mean" (include args) = false ->
  load_row (path, result) = inl (Py.KeyError "mean_representations").
Proof.
  intros Hres Hflag.
  pose proof (seq_result_label mean0 _ _ _ _ _ _ _ Hres) as Hlabel.
  pose proof (result_lookup_mean _ _ _ _ _ _ _ Hres) as Hm.
  rewrite Hflag in Hm.
  unfold load_row, dict_getitem. unfold_monad. rewrite Hlabel. simpl. by rewrite Hm.
Qed.

(** X12: what the concatenator makes of a file the runner saved. Without
    'mean' in [--include] loading its row raises [KeyError] for
    'mean_representations'. With 'mean' and no layer in the model output
    it raises the [KeyError] of [popitem] on an empty dictionary. With
    'mean' and distinct layers, the row is keyed by the label and holds the
    mean of the last layer of the model output. *)
Theorem saved_result_row args reps contacts i label strs
    (result : gmap string value) (path : string) :
  seq_result mean0 args reps contacts i label strs = inr result ->
  (Py.str_in_list "mean" (include args) = false ->
   load_row (path, result) = inl (Py.KeyError "mean_representations")) /\
  (Py.str_in_list "mean" (include args) = true -> reps = [] ->
   load_row (path, result) = inl (Py.KeyError "popitem(): dictionary is empty")) /\
  (Py.str_in_list "mean" (include args) = true -> NoDup reps.*1 ->
   forall layer t, last reps = Some (layer, t) ->
   exists s m,
     strs !! i = Some s /\ per_tok_slice (truncate_len args s) i t = inr m /\
     load_row (path, result) = inr [(VStr label, Some <$> (CNum <$> mean0 m))]).
Proof.
  intros Hres.
  pose proof (seq_result_label mean0 _ _ _ _ _ _ _ Hres) as Hlabel.
  pose proof (result_lookup_mean _ _ _ _ _ _ _ Hres) as Hm.
  unfold load_row, dict_getitem. unfold_monad. rewrite Hlabel. simpl.
  split; [| split].
  - intros Hflag. rewrite Hflag in Hm. by rewrite Hm.
  - intros Hflag ->. rewrite Hflag in Hm. destruct Hm as (s & x & _ & Hv & ->).
    injection Hv as <-. reflexivity.
  - intros Hflag Hnd layer t Hlast. rewrite Hflag in Hm.
    destruct Hm as (s & x & Hs & Hv & ->).
    apply layers_value_entries in Hv as (d & -> & Hd); [| done].
    pose proof (Forall2_last _ _ _ Hd) as Hlasts. rewrite Hlast in Hlasts.
    inversion Hlasts as [kt [k w] [Hk Hentry] Hkt Hkw |]; subst. simpl in *.
    unfold mean_entry in Hentry. unfold_monad.
    destruct (per_tok_slice (truncate_len args s) i t) as [e | m] eqn:Hslice;
      simpl in Hentry; [discriminate |].
    injection Hentry as <-.
    exists s, m. repeat split; try done.
    unfold value_popitem, Py.popitem. unfold_monad. rewrite <- Hkw. reflexivity.
Qed.

End SavedResult.

(** * Further properties of the concatenator *)

Section Table.

Context {elt : Type}.
Implicit Types (t : @tree elt) (d : gmap string (@value elt)).
Implicit Types (rows : list (@value elt * list (option (@cell elt)))).

Lemma df_width_ge rows r : r ∈ rows -> (length r.2 <= df_width rows)%nat.
Proof.
  induction rows as [| r' rows IH]; simpl.
  - intros Hin. by apply not_elem_of_nil in Hin.
  - intros [-> | Hin]%elem_of_cons; [lia |]. specialize (IH Hin). lia.
Qed.

Lemma df_width_uniform rows (w : nat) :
  rows <> [] -> Forall (fun r => length r.2 = w) rows -> df_width rows = w.
Proof.
  intros Hne Hall. induction Hall as [| r rows Hr Hall IH]; [done |]. simpl.
  destruct rows as [| r' rows']; simpl in *; [lia |].
  rewrite IH by done. lia.
Qed.

Lemma pd_concat_rows (dfs : list (list (@value elt * list (option (@cell elt))))) :
  pd_concat dfs =
    (fun r => (r.1, r.2 ++ replicate (df_width (concat dfs) - length r.2) None))
      <$> concat dfs.
Proof. reflexivity. Qed.

Lemma df_width_pd_concat (dfs : list (list (@value elt * list (option (@cell elt))))) :
  df_width (pd_concat dfs) = df_width (concat dfs).
Proof.
  rewrite pd_concat_rows.
  assert (Hge : forall r, r ∈ concat dfs -> (length r.2 <= df_width (concat dfs))%nat)
    by (intros r; apply df_width_ge).
  remember (df_width (concat dfs)) as w eqn:Hw.
  destruct (concat dfs) as [| r rows]; [done |].
  apply df_width_uniform; [done |].
  apply Forall_fmap, Forall_forall. intros r' Hr'.
  specialize (Hge r' Hr'). simpl.
  rewrite length_app, length_replicate. lia.
Qed.

Lemma load_rows_concat (files : list (string * gmap string (@value elt))) dfs :
  load_rows files = inr dfs ->
  Forall2 (fun file r => exists label key x,
             row_ready file.2 label key x /\ r = (label, Some <$> tolist x))
          files (concat dfs).
Proof.
  intros Hrows%load_rows_inr.
  induction Hrows as [| [path d] df files dfs Hrow _ IH]; simpl; [constructor |].
  apply load_row_inr in Hrow as (label & key & x & Hready & ->).
  simpl. constructor; [eauto | exact IH].
Qed.

(** X13: a concatenation that returns with at least one selected file has
    written exactly one CSV, with one row per selected file in the order of
    the walk; the row of a file is keyed by its label and holds the tensor
    of the last entry of its mean representations, followed by missing
    cells up to the width of the widest row; the shape printed is the
    number of files by that width. *)
Theorem concatenate_files_table t (output_dir output_csv : string)
    (tr tr' : list event) :
  let files := pt_files (os_walk output_dir t) in
  files <> [] ->
  concatenate_files t output_dir output_csv tr = (inr tt, tr') ->
  exists df,
    tr' = tr ++ [EPrint (MsgShape (length files) (df_width df));
                 EToCsv output_csv df;
                 EPrint (MsgSavedCsv output_csv)] /\
    Forall2 (fun file row => exists label key x,
               row_ready file.2 label key x /\ row.1 = label /\
               padded_row (df_width df) (tolist x) row.2)
            files df.
Proof.
  intros files Hne. rewrite concatenate_files_unfold. fold files.
  destruct (load_rows files) as [e | dfs] eqn:Hrows; [discriminate |].
  pose proof (load_rows_concat _ _ Hrows) as Hconcat.
  assert (Hdf : Forall2 (fun file row => exists label key x,
                           row_ready file.2 label key x /\ row.1 = label /\
                           padded_row (df_width (pd_concat dfs)) (tolist x) row.2)
                        files (pd_concat dfs)).
  { rewrite df_width_pd_concat, pd_concat_rows. apply Forall2_fmap_r.
    apply Forall2_same_length_lookup_2; [by eapply Forall2_length |].
    intros i file r Hfile Hr.
    destruct (Forall2_lookup_lr _ _ _ _ _ _ Hconcat Hfile Hr)
      as (label & key & x & Hready & ->).
    apply list_elem_of_lookup_2 in Hr. apply df_width_ge in Hr.
    simpl in *. exists label, key, x.
    split; [exact Hready |]. split; [done |]. split; [| eauto].
    rewrite length_app, length_replicate. lia. }
  destruct dfs as [| df dfs].
  { simpl in Hconcat. apply Forall2_nil_inv_r in Hconcat. done. }
  intros [= <-]. eexists. split; [| exact Hdf].
  repeat f_equal. apply Forall2_length in Hdf. by rewrite Hdf.
Qed.

(** X14: when every selected file holds a mean vector of the same dimension
    [n], the table has one row per file and [n] columns, no cell is
    missing, and each row is the mean vector of its file keyed by its
    label. *)
Theorem concatenate_files_uniform t (output_dir output_csv : string)
    (tr : list event) (n : nat) :
  let files := pt_files (os_walk output_dir t) in
  files <> [] ->
  Forall (fun file => exists label key v,
            row_ready file.2 label key (T1 v) /\ length v = n) files ->
  exists df,
    concatenate_files t output_dir output_csv tr =
      (inr tt,
       tr ++ [EPrint (MsgShape (length files) n);
              EToCsv output_csv df;
              EPrint (MsgSavedCsv output_csv)]) /\
    Forall2 (fun file row => exists label key v,
               row_ready file.2 label key (T1 v) /\
               row = (label, Some <$> (CNum <$> v)))
            files df.
Proof.
  intros files Hne Hall.
  assert (Hready : Forall (fun file => exists label key x, row_ready file.2 label key x)
                          files).
  { eapply Forall_impl; [exact Hall |]. intros file (label & key & v & Hr & _). eauto. }
  destruct (load_rows_ready files Hready) as (dfs & Hrows & Hlen).
  pose proof (load_rows_concat _ _ Hrows) as Hconcat.
  assert (Hrowsn : Forall2 (fun file r => exists label key v,
                              row_ready file.2 label key (T1 v) /\
                              r = (label, Some <$> (CNum <$> v)) /\ length r.2 = n)
                           files (concat dfs)).
  { apply Forall2_same_length_lookup_2; [by eapply Forall2_length |].
    intros i file r Hfile Hr.
    destruct (Forall2_lookup_lr _ _ _ _ _ _ Hconcat Hfile Hr)
      as (label & key & x & Hx & ->).
    rewrite Forall_forall in Hall.
    destruct (Hall file) as (label' & key' & v & Hv & Hn);
      [by eapply list_elem_of_lookup_2 |].
    destruct Hx as (Hl & layers & Hm & Hlast), Hv as (Hl' & layers' & Hm' & Hlast').
    assert (label' = label) as -> by congruence.
    assert (layers' = layers) as -> by congruence.
    assert (x = T1 v) as -> by congruence.
    exists label, key', v. simpl. repeat split; try done.
    - exists layers. split; congruence.
    - by rewrite !length_fmap. }
  assert (Hw : df_width (concat dfs) = n).
  { apply df_width_uniform.
    - intros Hnil. rewrite Hnil in Hrowsn. apply Forall2_nil_inv_r in Hrowsn. done.
    - apply Forall_forall. intros r [i Hr]%list_elem_of_lookup.
      destruct (Forall2_lookup_r _ _ _ _ _ Hrowsn Hr) as (file & _ & label & key & v & _ & _ & Hn).
      exact Hn. }
  assert (Hpd : pd_concat dfs = concat dfs).
  { rewrite pd_concat_rows, Hw.
    transitivity (id <$> concat dfs); [| apply list_fmap_id].
    apply list_fmap_ext. intros i r Hr.
    destruct (Forall2_lookup_r _ _ _ _ _ Hrowsn Hr) as (file & _ & label & key & v & _ & -> & Hn).
    simpl in *. rewrite Hn, Nat.sub_diag. simpl. by rewrite app_nil_r. }
  rewrite concatenate_files_unfold. fold files. rewrite Hrows.
  destruct dfs as [| df dfs].
  { simpl in Hlen. destruct files; [done | discriminate]. }
  exists (concat (df :: dfs)). rewrite Hpd, Hw. split.
  - repeat f_equal. apply Forall2_length in Hrowsn. by rewrite Hrowsn.
  - eapply Forall2_impl; [exact Hrowsn |].
    intros file r (label & key & v & H1 & H2 & _). eauto.
Qed.


End Table.

(** * The entry point *)

Section Main.

Context {elt : Type} (mean0 : list (list elt) -> list elt).
Context (env : @Env elt) (stem : string -> string).
Context (walk_tree : list (@event elt) -> @tree elt).
Implicit Types (args : Args).

Lemma elem_of_in_run (ev : @event elt) (tr : list (@event elt)) :
  InRun ev ∈ (InRun <$> tr) -> ev ∈ tr.
Proof. intros (ev' & [= <-] & Hin)%list_elem_of_fmap. exact Hin. Qed.

Lemma skipping_not_in_run (tr : list (@event elt)) : MsgSkipping ∉ (InRun <$> tr).
Proof. intros (ev' & [=] & _)%list_elem_of_fmap. Qed.

(** X15: [main] writes a CSV only after the run has returned and only when
    [--concatenate_dir] is set, and then at
    [<concatenate_dir>/<stem>_<model_location>.csv]; it prints that the
    concatenation is skipped exactly when the run has returned and
    [--concatenate_dir] is not set. *)
Theorem main_csv_after_run args :
  (forall path df,
     InRun (EToCsv path df) ∈ (main mean0 env stem walk_tree args).2 ->
     (run mean0 env args []).1 = inr tt /\
     exists dir, concatenate_dir args = Some dir /\ path = output_csv stem args dir) /\
  (MsgSkipping ∈ (main mean0 env stem walk_tree args).2 <->
   (run mean0 env args []).1 = inr tt /\ concatenate_dir args = None).
Proof.
  pose proof (run_never_writes_csv mean0 env args) as Hcsv.
  unfold main. destruct (run mean0 env args []) as [[e | []] tr] eqn:Hrun; simpl in *.
  - split.
    + intros path df Hin%elem_of_in_run. by apply Hcsv in Hin.
    + split; [intros Hin; by apply skipping_not_in_run in Hin | intros [[=] _]].
  - destruct (concatenate_dir args) as [dir |]; simpl.
    + rewrite concatenate_files_unfold. split.
      * intros path df Hin. split; [done |]. exists dir. split; [done |].
        destruct (load_rows _) as [e | [| df0 dfs]]; simpl in Hin;
          apply elem_of_in_run in Hin.
        -- by apply Hcsv in Hin.
        -- apply elem_of_app in Hin as [Hin | Hin]; [by apply Hcsv in Hin |].
           apply list_elem_of_singleton in Hin. discriminate.
        -- apply elem_of_app in Hin as [Hin | Hin]; [by apply Hcsv in Hin |].
           apply elem_of_cons in Hin as [[=] | Hin].
           apply elem_of_cons in Hin as [[= -> _] | Hin]; [done |].
           apply list_elem_of_singleton in Hin. discriminate.
      * split; [intros Hin; by apply skipping_not_in_run in Hin | intros [_ [=]]].
    + split.
      * intros path df [Hin | Hin]%elem_of_app.
        -- apply elem_of_in_run in Hin. by apply Hcsv in Hin.
        -- apply list_elem_of_singleton in Hin. discriminate.
      * split; [done |]. intros _. apply elem_of_app. right. left.
Qed.

Lemma saved_by_run args (tr : list event) dir name (result : gmap string value) :
  run mean0 env args [] = (inr tt, tr) -> ESave dir name result ∈ tr ->
  exists b i label reps contacts,
    b ∈ batches_of env args /\
    dict_comp inr
      (out_representations
         (forward (model_of env args) (toks b)
            (map (normalize_layer (Z.of_nat (num_layers (model_of env args))))
                 (repr_layers args))
            (return_contacts args))) [] = inr reps /\
    seq_result mean0 args reps contacts i label (strs b) = inr result.
Proof.
  intros Hrun Hin.
  assert (Hin' : ESave dir name result ∈ (run mean0 env args []).2) by (by rewrite Hrun).
  apply run_events in Hin'. simpl in Hin'.
  destruct Hin' as (b & i & label & reps & contacts & Hb & _ & _ & _ & Hd & _ & Hres).
  eauto 10.
Qed.

(** X16: with [--concatenate_dir] set and 'mean' not in [--include], when
    the run returns and the output directory holds at least one selected
    file, all of them saved by this run, [main] raises [KeyError] for
    'mean_representations' after the run and writes no CSV. *)
Theorem main_without_mean_fails args (tr : list event) (dir : string) :
  run mean0 env args [] = (inr tt, tr) ->
  concatenate_dir args = Some dir ->
  Py.str_in_list "mean" (include args) = false ->
  pt_files (os_walk (output_dir args) (walk_tree tr)) <> [] ->
  (forall path d, (path, d) ∈ pt_files (os_walk (output_dir args) (walk_tree tr)) ->
                  exists dir' name, ESave dir' name d ∈ tr) ->
  main mean0 env stem walk_tree args =
    (inl (Py.KeyError "mean_representations"), InRun <$> tr).
Proof.
  intros Hrun Hdir Hmean Hne Hsaved.
  unfold main. rewrite Hrun, Hdir. rewrite concatenate_files_unfold.
  destruct (pt_files _) as [| [path d] files]; [done |].
  destruct (Hsaved path d) as (dir' & name & Hin); [left |].
  destruct (saved_by_run _ _ _ _ _ Hrun Hin)
    as (b & i & label & reps & contacts & _ & _ & Hres).
  cbn [load_rows].
  rewrite (saved_without_mean_no_row mean0 _ _ _ _ _ _ _ path Hres Hmean). reflexivity.
Qed.

Lemma dict_comp_acc_nonempty {K V W} `{EqDecision K} (f : V -> Py.exn + W)
    (items : list (K * V)) (acc d : list (K * W)) :
  acc <> [] -> dict_comp f items acc = inr d -> d <> [].
Proof.
  revert acc. induction items as [| [k v] items IH]; intros acc Hacc; simpl.
  - by intros [= <-].
  - destruct (f v) as [e | w]; simpl; [discriminate |].
    apply IH. destruct acc as [| [k' w'] acc]; simpl; [done |].
    by destruct (decide (k = k')).
Qed.

Lemma dict_comp_nonempty {K V W} `{EqDecision K} (f : V -> Py.exn + W)
    (items : list (K * V)) (d : list (K * W)) :
  items <> [] -> dict_comp f items [] = inr d -> d <> [].
Proof.
  destruct items as [| [k v] items]; [done |]. intros _. simpl.
  destruct (f v) as [e | w]; simpl; [discriminate |].
  by apply dict_comp_acc_nonempty.
Qed.

(** X17: with [--concatenate_dir] set and 'mean' in [--include], when the
    run returns, the model output has at least one layer for every batch,
    and the output directory holds at least one selected file, all of them
    saved by this run, [main] gets as far as the CSV write: it calls
    [to_csv] on [<concatenate_dir>/<stem>_<model_location>.csv] with a
    table whose rows are keyed, in the order of the walk, by the labels of
    the files. (The script does not create [concatenate_dir]; whether the
    write succeeds is left to the file system.) *)
Theorem main_with_mean_reaches_csv args (tr : list event) (dir : string) :
  run mean0 env args [] = (inr tt, tr) ->
  concatenate_dir args = Some dir ->
  Py.str_in_list "mean" (include args) = true ->
  (forall b, b ∈ batches_of env args ->
     out_representations
       (forward (model_of env args) (toks b)
          (map (normalize_layer (Z.of_nat (num_layers (model_of env args))))
               (repr_layers args))
          (return_contacts args)) <> []) ->
  pt_files (os_walk (output_dir args) (walk_tree tr)) <> [] ->
  (forall path d, (path, d) ∈ pt_files (os_walk (output_dir args) (walk_tree tr)) ->
                  exists dir' name, ESave dir' name d ∈ tr) ->
  exists df,
    InRun (EToCsv (output_csv stem args dir) df)
      ∈ (main mean0 env stem walk_tree args).2 /\
    Forall2 (fun file label => file.2 !! "label" = Some label)
            (pt_files (os_walk (output_dir args) (walk_tree tr))) df.*1.
Proof.
  intros Hrun Hdir Hmean Hlayers Hne Hsaved.
  set (files := pt_files _) in *.
  assert (Hready : Forall (fun file => exists label key x, row_ready file.2 label key x)
                          files).
  { apply Forall_forall. intros [path d] Hfile.
    destruct (Hsaved path d Hfile) as (dir' & name & Hin).
    destruct (saved_by_run _ _ _ _ _ Hrun Hin)
      as (b & i & label & reps & contacts & Hb & Hreps & Hres).
    pose proof (seq_result_label mean0 _ _ _ _ _ _ _ Hres) as Hlabel.
    pose proof (result_lookup_mean mean0 _ _ _ _ _ _ _ Hres) as Hm.
    rewrite Hmean in Hm. destruct Hm as (s & x & _ & Hv & Hx).
    unfold layers_value in Hv. unfold_monad.
    destruct (dict_comp _ reps []) as [e | layers] eqn:Hd; simpl in Hv; [discriminate |].
    injection Hv as <-.
    assert (Hnonempty : layers <> []).
    { eapply dict_comp_nonempty; [| exact Hd].
      eapply dict_comp_nonempty; [| exact Hreps]. by apply Hlayers. }
    apply last_is_Some in Hnonempty as [[key w] Hlast].
    exists (VStr label), key, w. simpl. split; [done |]. eauto. }
  destruct (load_rows_ready files Hready) as (dfs & Hrows & Hlen).
  unfold main. rewrite Hrun, Hdir. rewrite concatenate_files_unfold. fold files.
  rewrite Hrows. destruct dfs as [| df dfs].
  { destruct files; [done | discriminate]. }
  eexists. split.
  - cbn [fst snd]. apply list_elem_of_fmap. eexists. split; [reflexivity |].
    apply elem_of_app. right. right. left.
  - rewrite pd_concat_index. by apply rows_keyed_by_label, load_rows_inr.
Qed.

End Main.

(** * Order of the effects *)

Section Adds.

Context {E : Type} (T : list E -> Prop).
Hypothesis T_nil : T [].
Hypothesis T_app : forall evs1 evs2, T evs1 -> T evs2 -> T (evs1 ++ evs2).

Lemma adds_ret {A} (a : A) : adds T (ret a).
Proof. intros tr. exists []. by rewrite app_nil_r. Qed.

Lemma adds_raise {A} (e : Py.exn) : adds T (@raise E A e).
Proof. intros tr. exists []. by rewrite app_nil_r. Qed.

Lemma adds_emit (ev : E) : T [ev] -> adds T (emit ev).
Proof. intros Hev tr. by exists [ev]. Qed.

Lemma adds_bind {A B} (m : M E A) (k : A -> M E B) :
  adds T m -> (forall a, adds T (k a)) -> adds T (bind m k).
Proof.
  intros Hm Hk tr. destruct (Hm tr) as (new1 & Htr & Hnew1).
  unfold bind. destruct (m tr) as [[e | a] tr1]; simpl in *; subst tr1.
  - by exists new1.
  - destruct (Hk a (tr ++ new1)) as (new2 & Htr2 & Hnew2).
    exists (new1 ++ new2). rewrite Htr2, app_assoc. auto.
Qed.

Lemma adds_for_each {A} (l : list A) (body : A -> M E unit) :
  (forall x, adds T (body x)) -> adds T (for_each l body).
Proof.
  intros Hbody. induction l as [| x l IH]; simpl.
  - apply adds_ret.
  - apply adds_bind; [apply Hbody | intros _; exact IH].
Qed.

End Adds.

Section Pairing.

Context {elt : Type} (mean0 : list (list elt) -> list elt).
Implicit Types (env : @Env elt) (args : Args) (evs : list (@event elt)).

Lemma paired_app evs1 evs2 : paired evs1 -> paired evs2 -> paired (evs1 ++ evs2).
Proof.
  remember (length evs1) as n eqn:Hn. revert evs1 Hn.
  induction n as [n IH] using lt_wf_ind. intros evs1 -> H1 H2.
  destruct evs1 as [| ev evs1]; [done |].
  assert (Htail : forall evs, (length evs < length (ev :: evs1))%nat ->
                              paired evs -> paired (evs ++ evs2)).
  { intros evs Hlt Hevs. by apply (IH (length evs)). }
  destruct ev; try (apply (Htail evs1); [simpl; lia | exact H1]); try done.
  destruct evs1 as [| ev' evs1].
  - simpl. destruct evs2 as [| [] evs2]; try done.
  - destruct ev';
      try (match goal with
           | |- paired ((_ :: ?e :: ?l) ++ _) =>
               change (paired ((e :: l) ++ evs2));
               apply Htail; [simpl; lia | exact H1]
           end).
    destruct H1 as (-> & -> & H1). simpl. repeat split.
    apply (Htail evs1); [simpl; lia | exact H1].
Qed.

Lemma paired_lookup evs k dir name (result : gmap string value) :
  paired evs -> evs !! k = Some (ESave dir name result) ->
  exists k', k = S k' /\ evs !! k' = Some (EMkdirParent dir name).
Proof.
  remember (length evs) as n eqn:Hn. revert evs k Hn.
  induction n as [n IH] using lt_wf_ind. intros evs k -> Hp Hk.
  destruct evs as [| ev evs]; [done |].
  assert (Htail : forall evs' j,
             (length evs' < length (ev :: evs))%nat -> paired evs' ->
             evs' !! j = Some (ESave dir name result) ->
             exists j', j = S j' /\ evs' !! j' = Some (EMkdirParent dir name)).
  { intros evs' j Hlt Hevs' Hj. by apply (IH (length evs') Hlt evs' j). }
  assert (Hskip : paired evs -> (forall d n r, ev <> ESave d n r) ->
                  exists k', k = S k' /\
                             (ev :: evs) !! k' = Some (EMkdirParent dir name)).
  { intros Hevs Hev. destruct k as [| k]; simpl in Hk.
    - injection Hk as ->. by destruct (Hev dir name result).
    - destruct (Htail evs k) as (k' & -> & Hk'); [simpl; lia | done | done |].
      exists (S k'). done. }
  destruct ev; try (apply Hskip; [exact Hp | discriminate]); try done.
  destruct evs as [| ev' evs].
  - apply Hskip; [done | discriminate].
  - destruct ev'; try (apply Hskip; [exact Hp | discriminate]).
    destruct Hp as (-> & -> & Hp).
    destruct k as [| [| k]]; simpl in Hk; [discriminate | |].
    + injection Hk as -> -> ->. by exists 0%nat.
    + destruct (Htail evs k) as (k' & -> & Hk'); [simpl; lia | done | done |].
      exists (S (S k')). done.
Qed.

Lemma run_adds_paired env args : adds paired (run mean0 env args).
Proof.
  pose proof paired_app as Happ.
  unfold run. unfold_monad.
  apply adds_bind; [done | by apply adds_emit | intros _].
  apply adds_bind; [done | by apply adds_emit | intros _].
  destruct (is_MSATransformer _); [by apply adds_raise |].
  apply adds_bind; [done | | intros _].
  { destruct (use_accelerator _ _); [| by apply adds_ret].
    apply adds_bind; [done | by apply adds_emit | intros _]. by apply adds_emit. }
  apply adds_bind; [done | by apply adds_emit | intros _].
  apply adds_bind; [done | by apply adds_emit | intros _].
  apply adds_bind; [done | by apply adds_emit | intros _].
  apply adds_bind; [done | by apply adds_emit | intros _].
  destruct (negb _); [by apply adds_raise |].
  apply adds_bind; [done | | intros _; by apply adds_emit].
  apply adds_for_each; [done | done |]. intros [batch_idx b].
  unfold process_batch. unfold_monad.
  apply adds_bind; [done | by apply adds_emit | intros _].
  apply adds_bind; [done | by apply adds_emit | intros _].
  apply adds_bind; [done | by apply adds_emit | intros _].
  apply adds_bind; [done | | intros reps].
  { intros tr. exists []. by rewrite app_nil_r. }
  apply adds_bind; [done | | intros contacts].
  { destruct (return_contacts args); [| by apply adds_ret].
    destruct (out_contacts _); [by apply adds_ret | by apply adds_raise]. }
  apply adds_for_each; [done | done |]. intros [i label].
  intros tr. unfold process_sequence. unfold_monad. unfold bind, emit, lift.
  destruct (seq_result _ _ _ _ _ _ _) as [e | result]; simpl.
  - by exists [EMkdirParent (output_dir args) (label +:+ ".pt")].
  - exists [EMkdirParent (output_dir args) (label +:+ ".pt");
            ESave (output_dir args) (label +:+ ".pt") result].
    by rewrite <- app_assoc.
Qed.

(** X18: in the trace of a run every write of a per-sequence file comes
    immediately after the creation of the parent directory of that very
    file. *)
Theorem run_mkdir_before_save env args (k : nat) dir name
    (result : gmap string value) :
  (run mean0 env args []).2 !! k = Some (ESave dir name result) ->
  exists k', k = S k' /\
             (run mean0 env args []).2 !! k' = Some (EMkdirParent dir name).
Proof.
  destruct (run_adds_paired env args []) as (new & -> & Hnew). simpl.
  by apply paired_lookup.
Qed.

End Pairing.

(** * The further properties on the sample settings *)

Lemma run_device_use_witness :
  EModelTo cuda
    ∈ (run Sample.mean0 Scenario.env_cuda (Scenario.args [-1] ["mean"] false None) []).2 /\
  EModelTo cuda
    ∉ (run Sample.mean0 Scenario.env_cuda (Scenario.args [-1] ["mean"] true None) []).2.
Proof.
  split; [pick_element |].
  intros Hin.
  apply (run_device_use Sample.mean0 Scenario.env_cuda
           (Scenario.args [-1] ["mean"] true None) cuda) in Hin.
  destruct Hin as [Hno _]. discriminate.
Defined.

Lemma run_saves_one_file_per_label_witness :
  flat_map saved_file
    (run Sample.mean0 Sample.env (Sample.args "esm" [-1] ["mean"] 1022) []).2
  = [("out", "a.pt"); ("out", "b.pt")].
Proof.
  destruct (run_saves_one_file_per_label Sample.mean0 Sample.env
              (Sample.args "esm" [-1] ["mean"] 1022)
              (run Sample.mean0 Sample.env (Sample.args "esm" [-1] ["mean"] 1022) []).2)
    as [Hsaved _]; [by vm_compute |].
  rewrite Hsaved. reflexivity.
Defined.

Lemma run_no_batches_witness :
  run Sample.mean0 Scenario.env_empty (Scenario.args [-1] ["mean"] false None) [] =
    (inr tt,
     [ELoadModel "esm"; EModelEval; EModelTo cuda; EPrint (MsgTransferred cuda);
      EReadFasta "data/seqs.fasta"; EBatchIndices 4096;
      EPrint (MsgRead "data/seqs.fasta" 0); EMkdir "out"; EPrint (MsgSaved "out")]).
Proof.
  apply (run_no_batches Sample.mean0 Scenario.env_empty
           (Scenario.args [-1] ["mean"] false None) []); reflexivity.
Defined.


Lemma scenario_result (include : list string) :
  Py.str_in_list "contacts" include = true ->
  seq_result Sample.mean0 (Scenario.args [1; 2] include false None)
    Scenario.reps Scenario.contacts 0 "a" (strs Sample.batch)
  = inr (Scenario.result include).
Proof.
  intros Hc. unfold Scenario.result.
  destruct (seq_result_succeeds Sample.mean0 (Scenario.args [1; 2] include false None)
              Scenario.reps Scenario.contacts 0 "a" (strs Sample.batch) "MK")
    as [r ->]; [reflexivity | | | reflexivity].
  - intros layer t Hin. apply list_elem_of_In in Hin. vm_compute in Hin.
    destruct Hin as [[= <- <-] | [[= <- <-] | []]]; eexists _, _; reflexivity.
  - intros _. by eexists.
Qed.

Lemma saved_layers_follow_output_witness :
  exists d,
    Scenario.result ["mean"; "contacts"] !! "mean_representations" = Some (VLayers d) /\
    d.*1 = [1; 2].
Proof.
  eexists. split; [by vm_compute |].
  apply (saved_layers_follow_output Sample.mean0
           (Scenario.args [1; 2] ["mean"; "contacts"] false None)
           Scenario.reps Scenario.contacts 0 "a" (strs Sample.batch)
           (Scenario.result ["mean"; "contacts"]) "mean_representations").
  - apply (bool_decide_unpack _). by vm_compute.
  - by apply scenario_result.
  - by vm_compute.
Defined.

Lemma saved_bos_is_first_row_witness :
  exists t bos rows,
    (2, t) ∈ Scenario.reps /\ t !! 0%nat = Some (bos :: rows) /\ T1 [0; 2] = T1 bos.
Proof.
  eapply (saved_bos_is_first_row Sample.mean0
            (Scenario.args [1; 2] ["bos"; "contacts"] false None)
            Scenario.reps Scenario.contacts 0 "a" (strs Sample.batch)
            (Scenario.result ["bos"; "contacts"]) _ 2 (T1 [0; 2])).
  - by apply scenario_result.
  - by vm_compute.
  - pick_element.
Defined.

Lemma saved_rows_skip_bos_witness :
  exists t rows n,
    (2, t) ∈ Scenario.reps /\ t !! 0%nat = Some rows /\
    T2 [[20; 2]; [15; 2]] = T2 (take n (drop 1 rows)).
Proof.
  eapply (proj1 (saved_rows_skip_bos Sample.mean0
                   (Scenario.args [1; 2] ["per_tok"; "contacts"] false None)
                   Scenario.reps Scenario.contacts 0 "a" (strs Sample.batch)
                   (Scenario.result ["per_tok"; "contacts"])
                   (scenario_result ["per_tok"; "contacts"] eq_refl))
            _ 2 (T2 [[20; 2]; [15; 2]])).
  - by vm_compute.
  - pick_element.
Defined.

Lemma saved_mean_true_length_witness :
  exists t toks,
    (2, t) ∈ Scenario.reps /\ token_rows 0 2 t toks /\
    T1 [17; 2] = T1 (Sample.mean0 (take 2 toks)).
Proof.
  eapply (saved_mean_true_length Sample.mean0
            (Scenario.args [1; 2] ["mean"; "contacts"] false None)
            Scenario.reps Scenario.contacts 0 "a" (strs Sample.batch) "MK"
            (Scenario.result ["mean"; "contacts"]) _ 2 (T1 [17; 2])).
  - reflexivity.
  - simpl. lia.
  - intros layer t Hin. apply list_elem_of_In in Hin. vm_compute in Hin.
    destruct Hin as [[= <- <-] | [[= <- <-] | []]].
    + exists [[20; 1]; [15; 1]], [0; 1], [[2; 1]; [1; 1]; [1; 1]]. split; reflexivity.
    + exists [[20; 2]; [15; 2]], [0; 2], [[2; 2]; [1; 2]; [1; 2]]. split; reflexivity.
  - by apply scenario_result.
  - by vm_compute.
  - pick_element.
Defined.

Lemma saved_result_row_witness :
  load_row ("out/a.pt", Scenario.result ["bos"; "contacts"])
  = inl (Py.KeyError "mean_representations").
Proof.
  apply (saved_result_row Sample.mean0
           (Scenario.args [1; 2] ["bos"; "contacts"] false None)
           Scenario.reps Scenario.contacts 0 "a" (strs Sample.batch)
           (Scenario.result ["bos"; "contacts"]) "out/a.pt").
  - by apply scenario_result.
  - reflexivity.
Defined.

Lemma concatenate_files_table_witness :
  exists df,
    (concatenate_files Sample.tree_mean "out" "out.csv" []).2 =
      [] ++ [EPrint (MsgShape 2 (df_width df)); EToCsv "out.csv" df;
             EPrint (MsgSavedCsv "out.csv")] /\
    length df = 2%nat.
Proof.
  destruct (concatenate_files_table Sample.tree_mean "out" "out.csv" []
              (concatenate_files Sample.tree_mean "out" "out.csv" []).2)
    as (df & Htr & Hrows); [discriminate | by vm_compute |].
  exists df. split; [exact Htr |].
  apply Forall2_length in Hrows. rewrite <- Hrows. reflexivity.
Defined.

Lemma concatenate_files_uniform_witness :
  exists df,
    concatenate_files Sample.tree_mean "out" "out.csv" [] =
      (inr tt,
       [] ++ [EPrint (MsgShape 2 2); EToCsv "out.csv" df;
              EPrint (MsgSavedCsv "out.csv")]).
Proof.
  destruct (concatenate_files_uniform Sample.tree_mean "out" "out.csv" [] 2)
    as (df & Hrun & _).
  - discriminate.
  - change (pt_files (os_walk "out" Sample.tree_mean))
      with [("out/a.pt", Sample.file_a); ("out/sub/b.pth", Sample.file_b)].
    repeat constructor.
    + exists (VStr "a"), 2, [6; 7]. split; [| reflexivity].
      split; [reflexivity |]. eexists. split; reflexivity.
    + exists (VStr "b"), 2, [8; 9]. split; [| reflexivity].
      split; [reflexivity |]. eexists. split; reflexivity.
  - exists df. exact Hrun.
Defined.

(** In the sample file system every selected file was saved by the
    effects. *)
Lemma scenario_files_saved (tr : list (@event Z)) (dir path : string) d :
  (path, d) ∈ pt_files (os_walk dir (Scenario.walk_tree tr)) ->
  exists dir' name, ESave dir' name d ∈ tr.
Proof.
  intros (r & dirs & files & file & Hwalk & Hfile & _ & _)%elem_of_pt_files.
  simpl in Hwalk. apply list_elem_of_singleton in Hwalk. injection Hwalk as -> -> ->.
  apply list_elem_of_In, in_flat_map in Hfile as (ev & Hev & Hin).
  destruct ev; simpl in Hin; try done.
  destruct Hin as [[= -> ->] | []].
  eexists _, _. apply list_elem_of_In. exact Hev.
Qed.

Lemma main_csv_after_run_witness :
  MsgSkipping
    ∈ (main Sample.mean0 Sample.env Scenario.stem Scenario.walk_tree
         (Scenario.args [-1] ["mean"] false None)).2.
Proof.
  apply (main_csv_after_run Sample.mean0 Sample.env Scenario.stem Scenario.walk_tree
           (Scenario.args [-1] ["mean"] false None)).
  split; reflexivity.
Defined.

Lemma main_without_mean_fails_witness :
  (main Sample.mean0 Sample.env Scenario.stem Scenario.walk_tree
     (Scenario.args [-1] ["bos"] false (Some "csv"))).1
  = inl (Py.KeyError "mean_representations").
Proof.
  rewrite (main_without_mean_fails Sample.mean0 Sample.env Scenario.stem
             Scenario.walk_tree (Scenario.args [-1] ["bos"] false (Some "csv"))
             (run Sample.mean0 Sample.env
                (Scenario.args [-1] ["bos"] false (Some "csv")) []).2 "csv").
  - reflexivity.
  - by vm_compute.
  - reflexivity.
  - reflexivity.
  - by vm_compute.
  - intros path d. apply scenario_files_saved.
Defined.

Lemma main_with_mean_reaches_csv_witness :
  exists df,
    InRun (EToCsv "csv/seqs_esm.csv" df)
      ∈ (main Sample.mean0 Sample.env Scenario.stem Scenario.walk_tree
           (Scenario.args [-1] ["mean"] false (Some "csv"))).2.
Proof.
  destruct (main_with_mean_reaches_csv Sample.mean0 Sample.env Scenario.stem
              Scenario.walk_tree (Scenario.args [-1] ["mean"] false (Some "csv"))
              (run Sample.mean0 Sample.env
                 (Scenario.args [-1] ["mean"] false (Some "csv")) []).2 "csv")
    as (df & Hin & _).
  - by vm_compute.
  - reflexivity.
  - reflexivity.
  - intros b ->%list_elem_of_singleton. discriminate.
  - by vm_compute.
  - intros path d. apply scenario_files_saved.
  - exists df. exact Hin.
Defined.

Lemma run_mkdir_before_save_witness :
  exists k',
    10%nat = S k' /\
    (run Sample.mean0 Sample.env (Sample.args "esm" [-1] ["mean"] 1022) []).2 !! k'
    = Some (EMkdirParent "out" "a.pt").
Proof.
  eapply (run_mkdir_before_save Sample.mean0 Sample.env
            (Sample.args "esm" [-1] ["mean"] 1022) 10 "out" "a.pt").
  by vm_compute.
Defined.

Lemma run_normalizes_layers_witness :
  EForward (toks Sample.batch) [2; 0; 2] false
    ∈ (run Sample.mean0 Sample.env (Sample.args "esm" [-1; 0; 2] ["mean"] 1022) []).2 /\
  Forall2 (fun i j => - (2 + 1) <= i <= 2 /\
                      j = (i + 2 + 1) `mod` (2 + 1) /\
                      0 <= j <= 2 /\
                      (0 <= i -> j = i) /\
                      (i < 0 -> j = i + 2 + 1) /\
                      (i = -1 -> j = 2))
          [-1; 0; 2] [2; 0; 2].
Proof.
  split; [pick_element |].
  apply (run_normalizes_layers Sample.mean0 Sample.env
           (Sample.args "esm" [-1; 0; 2] ["mean"] 1022)
           (toks Sample.batch) [2; 0; 2] false).
  pick_element.
Defined.


